(** * Brave Search MCP server: the rate limiter, the search client, the
    result formatters and the call-tool dispatch of [dist/index.js]
    (TypeScript source [index.ts]), as a shallow embedding.

    Modelling choices.
    - JavaScript numbers that the program handles (counters, timestamps,
      result counts, HTTP status codes, ratings) are integers here ([Z]);
      an integer stands for the Number nearest to it, and is printed as
      [Number.prototype.toString] prints that Number.  Fractional values
      and NaN are not covered.
    - JSON bodies are typed by the interfaces of [index.ts] ([BraveWeb],
      [BraveLocation], [BravePoiResponse], [BraveDescription]); a property
      that the code guards with [||], [??] or [?.] is an [option], and so
      is [descriptions], whose absence makes the formatter throw.  A lookup
      in [descriptions] by identifier also sees the members every object
      inherits from [Object.prototype].
    - The module state [requestCount], the wall clock read by [Date.now()],
      the upstream API answering [fetch] and the list of requests sent so
      far make up a [World]; asynchronous functions are computations in a
      state-and-exception monad over it. *)

From Stdlib Require Import ZArith Lia Ascii String DecimalString.
From stdpp Require Import base option list strings gmap.

Local Open Scope string_scope.
Local Open Scope Z_scope.

(** ** JavaScript primitives used by the program *)

Module Js.

(** The decimal digits of an integer. *)
Definition decimal (n : Z) : string :=
  NilZero.string_of_int (Z.to_int n).

(** The Number nearest to a non-negative integer (round to nearest, ties
    to even, 53 bits of precision); every integer below 2^53 is a Number.
    A result of 2^1024 or more stands for [Infinity]. *)
Definition nearest_double (m : Z) : Z :=
  let bits := Z.log2 m + 1 in
  if bits <=? 53 then m
  else
    let e := bits - 53 in
    let q := Z.shiftr m e in
    let r := m - Z.shiftl q e in
    let half := Z.shiftl 1 (e - 1) in
    let q' := if (half <? r) || ((r =? half) && Z.odd q) then q + 1 else q in
    Z.shiftl q' e.

(** The digits of [Number::toString]: the least [k], from [k] on, for which
    some [s] of [k] digits has [s * 10^j] read back as [x]; of two such [s]
    the one nearest to [x], the even one on a tie.  [digits] is the number
    of digits of [x], so that [j = digits - k]. *)
Fixpoint shortest_digits (fuel : nat) (k digits x : Z) : Z * Z :=
  match fuel with
  | O => (x, 0)
  | S fuel' =>
      let j := digits - k in
      let p := 10 ^ j in
      let lo := x / p in
      let hi := lo + 1 in
      let ok_lo := nearest_double (lo * p) =? x in
      let ok_hi := nearest_double (hi * p) =? x in
      if ok_lo && ok_hi then
        let below := x - lo * p in
        let above := hi * p - x in
        if below <? above then (lo, j)
        else if above <? below then (hi, j)
        else if Z.even lo then (lo, j) else (hi, j)
      else if ok_lo then (lo, j)
      else if ok_hi then (hi, j)
      else shortest_digits fuel' (k + 1) digits x
  end.

(** [s * 10^j] with the zeros at the end of [s] moved into [j]. *)
Fixpoint strip_zeros (fuel : nat) (s j : Z) : Z * Z :=
  match fuel with
  | O => (s, j)
  | S fuel' =>
      if (0 <? s) && (s mod 10 =? 0) then strip_zeros fuel' (s / 10) (j + 1)
      else (s, j)
  end.

Fixpoint zeros (n : nat) : string :=
  match n with
  | O => ""
  | S n' => String "0" (zeros n')
  end.

(** [Number::toString] of a positive, finite, integer-valued Number: the
    digits followed by zeros up to 21 digits, the exponent form beyond. *)
Definition toString_double (x : Z) : string :=
  let digits := Z.of_nat (String.length (decimal x)) in
  let (s0, j0) := shortest_digits (Z.to_nat digits) 1 digits x in
  let (s, j) := strip_zeros (Z.to_nat digits) s0 j0 in
  let ds := decimal s in
  let k := Z.of_nat (String.length ds) in
  let n := k + j in
  if n <=? 21 then ds ++ zeros (Z.to_nat j)
  else
    match ds with
    | EmptyString => ""
    | String d rest =>
        (if k =? 1 then String d "" else String d ("." ++ rest))
        ++ "e+" ++ decimal (n - 1)
    end.

(** [Number.prototype.toString] on an integer-valued number.  An integer
    stands for the Number nearest to it; below 2^53 in magnitude this is
    the integer itself and the text is its decimal digits. *)
Definition toString (n : Z) : string :=
  if Z.abs n <? 2 ^ 53 then decimal n
  else
    let x := nearest_double (Z.abs n) in
    (if n <? 0 then "-" else "")
    ++ (if 2 ^ 1024 <=? x then "Infinity" else toString_double x).

(** [Array.prototype.join] on an array of strings. *)
Definition join (sep : string) (parts : list string) : string :=
  String.concat sep parts.

(** Truthiness of a string: only the empty string is falsy. *)
Definition truthy (s : string) : bool :=
  match s with
  | EmptyString => false
  | String _ _ => true
  end.

(** [s || d] where [s] is a string. *)
Definition or_else (s d : string) : string :=
  if truthy s then s else d.

(** [p || d] where [p] is a string property that may be [undefined]. *)
Definition prop_or (p : option string) (d : string) : string :=
  match p with
  | Some s => or_else s d
  | None => d
  end.

(** [p ?? d]: only [null] and [undefined] take the default. *)
Definition nullish {A} (p : option A) (d : A) : A :=
  match p with
  | Some a => a
  | None => d
  end.

(** What an object built by [JSON.parse] answers for a key that is not one
    of its own properties: the member of [Object.prototype] of that name,
    if there is one.  All of them are truthy (functions, and for
    [__proto__] the prototype object); given here is the text a template
    literal prints for the member. *)
Definition Object_prototype_methods : list string :=
  [ "__defineGetter__"; "__defineSetter__"; "hasOwnProperty";
    "__lookupGetter__"; "__lookupSetter__"; "isPrototypeOf";
    "propertyIsEnumerable"; "toString"; "valueOf"; "toLocaleString" ].

Definition inherited (key : string) : option string :=
  if String.eqb key "constructor" then Some "function Object() { [native code] }"
  else if String.eqb key "__proto__" then Some "[object Object]"
  else if existsb (String.eqb key) Object_prototype_methods
  then Some ("function " ++ key ++ "() { [native code] }")
  else None.

(** [Math.min] on integer-valued numbers. *)
Definition Math_min (a b : Z) : Z := Z.min a b.

(** Untyped values, for the parts of a request the program inspects
    with [typeof]. *)
#[warnings="-register-all"]
Inductive value : Type :=
| Undefined
| Null
| Bool (b : bool)
| Num (n : Z)
| Str (s : string)
| Arr (elems : list value)
| Obj (props : list (string * value)).

Definition typeof (v : value) : string :=
  match v with
  | Undefined => "undefined"
  | Null => "object"
  | Bool _ => "boolean"
  | Num _ => "number"
  | Str _ => "string"
  | Arr _ => "object"
  | Obj _ => "object"
  end.

(** [URLSearchParams], an ordered list of name/value pairs. *)
Definition URLSearchParams := list (string * string).

(** [params.set(name, v)]: the first pair called [name] takes the value
    and the later ones are dropped; without such a pair, one is added at
    the end. *)
Fixpoint set (name v : string) (params : URLSearchParams) : URLSearchParams :=
  match params with
  | [] => [(name, v)]
  | (k, old) :: rest =>
      if String.eqb k name
      then (name, v) :: filter (fun kv => negb (String.eqb (fst kv) name)) rest
      else (k, old) :: set name v rest
  end.

(** [params.append(name, v)]. *)
Definition append (name v : string) (params : URLSearchParams) : URLSearchParams :=
  (params ++ [(name, v)])%list.

(** [params.getAll(name)]. *)
Definition getAll (name : string) (params : URLSearchParams) : list string :=
  map snd (filter (fun kv => String.eqb (fst kv) name) params).

End Js.

(** The line feed of the template literals. *)
Definition LF : string := String "010"%char "".

(** ** Completions and the monad of the asynchronous functions *)

(** How a call ends: with a value, or with a thrown [Error].  Every value
    the program throws is an [Error] object (its own [new Error(...)], the
    [TypeError] of a failed [fetch], the [SyntaxError] of a body that is
    not JSON), so a throw is represented by the error's [message]. *)
Inductive Completion (A : Type) : Type :=
| Normal (a : A)
| Throw (message : string).
Arguments Normal {A} a.
Arguments Throw {A} message.

(** ** Data model *)

(** The module-level counters [requestCount]. *)
Record RequestCount : Type := mkRequestCount {
  second : Z;
  month : Z;
  lastReset : Z
}.

Module RATE_LIMIT.
Definition perSecond : Z := 1.
Definition perMonth : Z := 15000.
End RATE_LIMIT.

(** An outbound request: the URL without its query string, the query
    parameters and the headers handed to [fetch]. *)
Record Request : Type := mkRequest {
  endpoint : string;
  searchParams : Js.URLSearchParams;
  headers : list (string * string)
}.

(** What [fetch] resolves to, with the parsed body typed by the interface
    the program casts it to.  [json] is a completion: [response.json()]
    rejects when the body is not JSON. *)
Module Response.
Record t (A : Type) : Type := mk {
  ok : bool;
  status : Z;
  statusText : string;
  text : string;
  json : Completion A
}.
Arguments mk {A}.
Arguments ok {A}.
Arguments status {A}.
Arguments statusText {A}.
Arguments text {A}.
Arguments json {A}.
End Response.

(** [interface BraveWeb]. *)
Record WebResult : Type := mkWebResult {
  title : option string;
  description : option string;
  url : option string
}.

Record LocationResult : Type := mkLocationResult {
  loc_id : option string;
  loc_title : option string
}.

Record WebSection : Type := mkWebSection {
  web_results : option (list WebResult)
}.

Record LocationsSection : Type := mkLocationsSection {
  locations_results : option (list LocationResult)
}.

Record BraveWeb : Type := mkBraveWeb {
  web : option WebSection;
  locations : option LocationsSection
}.

(** [interface BraveLocation]; [name] and [id] are required, the code
    reads them unguarded. *)
Record Address : Type := mkAddress {
  streetAddress : option string;
  addressLocality : option string;
  addressRegion : option string;
  postalCode : option string
}.

Record Rating : Type := mkRating {
  ratingValue : option Z;
  ratingCount : option Z
}.

Record BraveLocation : Type := mkBraveLocation {
  poi_id : string;
  name : string;
  address : option Address;
  phone : option string;
  rating : option Rating;
  openingHours : option (list string);
  priceRange : option string
}.

(** [interface BravePoiResponse]. *)
Record BravePoiResponse : Type := mkBravePoiResponse {
  results : option (list BraveLocation)
}.

(** [interface BraveDescription]: the own properties of [descriptions],
    of index signature [{[id: string]: string}], as a finite map; [None]
    is a body without the property. *)
Record BraveDescription : Type := mkBraveDescription {
  descriptions : option (gmap string string)
}.

(** The process as the functions see it. *)
Record World : Type := mkWorld {
  (** the module variable [requestCount] *)
  requestCount : RequestCount;
  (** [clock n] is what the [n]-th call of [Date.now()] returns *)
  clock : nat -> Z;
  (** how many times [Date.now()] has been called *)
  ticks : nat;
  (** the module constant [BRAVE_API_KEY] *)
  apiKey : string;
  (** the upstream API: the answer to a request, given how many requests
      went out before it *)
  webApi : nat -> Request -> Completion (Response.t BraveWeb);
  poisApi : nat -> Request -> Completion (Response.t BravePoiResponse);
  descriptionsApi : nat -> Request -> Completion (Response.t BraveDescription);
  (** when both fetches of a local search fail, whether the POI one
      settles first; indexed like the API *)
  poisSettlesFirst : nat -> bool;
  (** the requests sent so far, oldest first *)
  sent : list Request
}.

Definition M (A : Type) : Type := World -> Completion A * World.

Definition ret {A} (a : A) : M A := fun w => (Normal a, w).

Definition throw {A} (message : string) : M A := fun w => (Throw message, w).

Definition bind {A B} (m : M A) (k : A -> M B) : M B :=
  fun w =>
    match m w with
    | (Normal a, w') => k a w'
    | (Throw e, w') => (Throw e, w')
    end.

(** [try { body } catch (error) { handler }] *)
Definition try_catch {A} (body : M A) (handler : string -> M A) : M A :=
  fun w =>
    match body w with
    | (Normal a, w') => (Normal a, w')
    | (Throw e, w') => handler e w'
    end.

(** [await p] for an already determined completion. *)
Definition await {A} (c : Completion A) : M A := fun w => (c, w).

(** A synchronous call inside an asynchronous function: what it returns,
    or the rejection of the promise when it throws. *)
Definition sync {A} (c : Completion A) : M A := fun w => (c, w).

(** [array.map(f)] with a callback that may throw: the first throw ends
    the traversal. *)
Fixpoint map_completion {A B} (f : A -> Completion B) (l : list A)
    : Completion (list B) :=
  match l with
  | [] => Normal []
  | a :: rest =>
      match f a with
      | Throw e => Throw e
      | Normal b =>
          match map_completion f rest with
          | Throw e => Throw e
          | Normal bs => Normal (b :: bs)
          end
      end
  end.

Declare Scope js_scope.
Delimit Scope js_scope with js.
Notation "x <- m ;; k" := (bind m (fun x => k))
  (at level 100, m at next level, right associativity) : js_scope.
Notation "m ;;; k" := (bind m (fun _ => k))
  (at level 100, right associativity) : js_scope.
Local Open Scope js_scope.

(** ** Start-up: the API key *)

(** [process.env.BRAVE_API_KEY || "BSAP..."]; an environment variable is a
    string or [undefined]. *)
Definition BRAVE_API_KEY (env : option string) : string :=
  Js.prop_or env "BSAPvn4j_7Yc1vqP6mBse4_yZRWA2p4".

Inductive Startup : Type :=
| Exit (code : Z) (stderr : string)
| Proceed (key : string).

(** [if (!BRAVE_API_KEY) { console.error(...); process.exit(1); }] *)
Definition check_api_key (env : option string) : Startup :=
  let key := BRAVE_API_KEY env in
  if negb (Js.truthy key)
  then Exit 1 "Error: BRAVE_API_KEY environment variable is required"
  else Proceed key.

(** ** Primitive effects *)

Definition set_requestCount (rc : RequestCount) (w : World) : World :=
  mkWorld rc (clock w) (ticks w) (apiKey w) (webApi w) (poisApi w)
    (descriptionsApi w) (poisSettlesFirst w) (sent w).

Definition Date_now : M Z :=
  fun w =>
    (Normal (clock w (ticks w)),
     mkWorld (requestCount w) (clock w) (S (ticks w)) (apiKey w) (webApi w)
       (poisApi w) (descriptionsApi w) (poisSettlesFirst w) (sent w)).

(** [fetch(url, { headers })] against one of the three endpoints. *)
Definition fetch {A} (api : World -> nat -> Request -> Completion (Response.t A))
    (req : Request) : M (Response.t A) :=
  fun w =>
    (api w (length (sent w)) req,
     mkWorld (requestCount w) (clock w) (ticks w) (apiKey w) (webApi w)
       (poisApi w) (descriptionsApi w) (poisSettlesFirst w)
       (sent w ++ [req])%list).

Definition fetch_headers (key : string) : list (string * string) :=
  [("Accept", "application/json");
   ("Accept-Encoding", "gzip");
   ("X-Subscription-Token", key)].

(** The message of the error thrown on a response that is not [ok]. *)
Definition api_error {A} (response : Response.t A) : string :=
  "Brave API error: " ++ Js.toString (Response.status response) ++ " "
    ++ Response.statusText response ++ LF ++ Response.text response.

(** ** Rate limiter *)

(** [checkRateLimit] at a given reading of the clock: the completion and
    the counters it leaves (the reset of the window survives a throw). *)
Definition checkRateLimit_at (now : Z) (rc : RequestCount)
    : Completion unit * RequestCount :=
  let rc1 :=
    if 1000 <? now - lastReset rc
    then mkRequestCount 0 (month rc) now
    else rc in
  if (RATE_LIMIT.perSecond <=? second rc1) || (RATE_LIMIT.perMonth <=? month rc1)
  then (Throw "Rate limit exceeded", rc1)
  else (Normal tt, mkRequestCount (second rc1 + 1) (month rc1 + 1) (lastReset rc1)).

Definition checkRateLimit : M unit :=
  now <- Date_now ;;
  fun w =>
    let (c, rc) := checkRateLimit_at now (requestCount w) in
    (c, set_requestCount rc w).

(** [requestCount] when the module is loaded. *)
Definition initial_requestCount (now : Z) : RequestCount :=
  mkRequestCount 0 0 now.

(** A succession of calls of [checkRateLimit], one per clock reading:
    their completions, in order, and the counters left. *)
Fixpoint checkRateLimit_calls (nows : list Z) (rc : RequestCount)
    : list (Completion unit) * RequestCount :=
  match nows with
  | [] => ([], rc)
  | now :: rest =>
      let (c, rc1) := checkRateLimit_at now rc in
      let (cs, rc2) := checkRateLimit_calls rest rc1 in
      (c :: cs, rc2)
  end.

(** ** Search client *)

Definition web_search_endpoint : string :=
  "https://api.search.brave.com/res/v1/web/search".
Definition pois_endpoint : string :=
  "https://api.search.brave.com/res/v1/local/pois".
Definition descriptions_endpoint : string :=
  "https://api.search.brave.com/res/v1/local/descriptions".

(** The text of one web result, after the [|| ''] defaults. *)
Definition formatWebResult (result : WebResult) : string :=
  let r_title := Js.prop_or (title result) "" in
  let r_description := Js.prop_or (description result) "" in
  let r_url := Js.prop_or (url result) "" in
  "Title: " ++ r_title ++ LF ++ "Description: " ++ r_description ++ LF
    ++ "URL: " ++ r_url.

(** [(data.web?.results || []).map(...).map(...).join('\n\n')] *)
Definition formatWebResults (data : BraveWeb) : string :=
  let results := Js.nullish (web data ≫= web_results) [] in
  Js.join (LF ++ LF) (map formatWebResult results).

(** The URL and headers [performWebSearch] hands to [fetch]. *)
Definition web_search_request (query : string) (count offset : Z) (key : string)
    : Request :=
  let params :=
    Js.set "offset" (Js.toString offset)
      (Js.set "count" (Js.toString (Js.Math_min count 20))
        (Js.set "q" query [])) in
  mkRequest web_search_endpoint params (fetch_headers key).

Definition performWebSearch (query : string) (count offset : option Z) : M string :=
  let count := Js.nullish count 10 in
  let offset := Js.nullish offset 0 in
  checkRateLimit ;;;
  key <- (fun w => (Normal (apiKey w), w)) ;;
  response <- fetch webApi (web_search_request query count offset key) ;;
  if negb (Response.ok response)
  then throw (api_error response)
  else
    data <- await (Response.json response) ;;
    ret (formatWebResults data).

(** [ids.filter(Boolean).forEach(id => url.searchParams.append('ids', id))] *)
Definition append_ids (ids : list string) (params : Js.URLSearchParams)
    : Js.URLSearchParams :=
  foldl (fun acc id => Js.append "ids" id acc) params
    (filter (fun id => Js.truthy id = true) ids).

Definition getPoisData (ids : list string) : M BravePoiResponse :=
  checkRateLimit ;;;
  key <- (fun w => (Normal (apiKey w), w)) ;;
  response <- fetch poisApi (mkRequest pois_endpoint (append_ids ids []) (fetch_headers key)) ;;
  if negb (Response.ok response)
  then throw (api_error response)
  else
    poisResponse <- await (Response.json response) ;;
    ret poisResponse.

Definition getDescriptionsData (ids : list string) : M BraveDescription :=
  checkRateLimit ;;;
  key <- (fun w => (Normal (apiKey w), w)) ;;
  response <- fetch descriptionsApi
    (mkRequest descriptions_endpoint (append_ids ids []) (fetch_headers key)) ;;
  if negb (Response.ok response)
  then throw (api_error response)
  else
    descriptionsData <- await (Response.json response) ;;
    ret descriptionsData.

(** ** Result formatter *)

(** The address line of a POI: the four components, absent ones as [''],
    the empty ones filtered out, joined by [', '], and ['N/A'] when that
    leaves the empty string. *)
Definition formatAddress (poi : BraveLocation) : string :=
  Js.or_else
    (Js.join ", "
       (filter (fun part => part <> "")
          [ Js.nullish (address poi ≫= streetAddress) "";
            Js.nullish (address poi ≫= addressLocality) "";
            Js.nullish (address poi ≫= addressRegion) "";
            Js.nullish (address poi ≫= postalCode) "" ]))
    "N/A".

(** [descData.descriptions[id] || 'No description available'] as the
    template literal prints it, for the own properties [table] of
    [descriptions]: an own property shadows the inherited members, also
    when it is the empty string. *)
Definition description_or_default (table : gmap string string) (id : string) : string :=
  match table !! id with
  | Some text => Js.or_else text "No description available"
  | None => Js.nullish (Js.inherited id) "No description available"
  end.

(** The block of one POI: the body of the arrow function mapped over
    [poisData.results].  Reading a property of [descData.descriptions]
    throws a [TypeError] when the body has no [descriptions]. *)
Definition formatPoi (descData : BraveDescription) (poi : BraveLocation)
    : Completion string :=
  match descriptions descData with
  | None =>
      Throw ("Cannot read properties of undefined (reading '" ++ poi_id poi ++ "')")
  | Some table =>
      Normal
        ("Name: " ++ name poi ++ LF
         ++ "Address: " ++ formatAddress poi ++ LF
         ++ "Phone: " ++ Js.prop_or (phone poi) "N/A" ++ LF
         ++ "Rating: " ++ from_option Js.toString "N/A" (rating poi ≫= ratingValue)
         ++ " (" ++ Js.toString (Js.nullish (rating poi ≫= ratingCount) 0)
         ++ " reviews)" ++ LF
         ++ "Price Range: " ++ Js.prop_or (priceRange poi) "N/A" ++ LF
         ++ "Hours: "
         ++ Js.or_else (Js.join ", " (Js.nullish (openingHours poi) [])) "N/A" ++ LF
         ++ "Description: " ++ description_or_default table (poi_id poi) ++ LF)
  end.

Definition formatLocalResults (poisData : BravePoiResponse)
    (descData : BraveDescription) : Completion string :=
  match map_completion (formatPoi descData) (Js.nullish (results poisData) []) with
  | Normal blocks =>
      Normal (Js.or_else (Js.join (LF ++ "---" ++ LF) blocks) "No local results found")
  | Throw e => Throw e
  end.

(** ** Local search *)

(** [Promise.all([p, q])] where [p] and [q] are calls of asynchronous
    functions, started in this order.  Each runs up to its [fetch] when it
    is called, so the effects of [p] on the counters and on the list of
    requests precede those of [q], and [q] is started even when [p] has
    already thrown.  When both reject, the rejection reported is that of
    the one that rejected first: a call that threw before sending its
    request rejected at once, and between two that failed after their
    requests went out the network decides. *)
Definition Promise_all2 {A B} (p : M A) (q : M B) : M (A * B) :=
  fun w =>
    let (cp, w1) := p w in
    let (cq, w2) := q w1 in
    match cp, cq with
    | Normal a, Normal b => (Normal (a, b), w2)
    | Throw e, Normal _ => (Throw e, w2)
    | Normal _, Throw e => (Throw e, w2)
    | Throw ep, Throw eq =>
        let p_sent := negb (Nat.eqb (length (sent w1)) (length (sent w))) in
        let q_sent := negb (Nat.eqb (length (sent w2)) (length (sent w1))) in
        let first :=
          if negb p_sent then ep
          else if negb q_sent then eq
          else if poisSettlesFirst w (length (sent w)) then ep else eq in
        (Throw first, w2)
    end.

(** [webData.locations?.results?.filter(r => r.id != null).map(r => r.id) || []] *)
Definition locationIds_of (webData : BraveWeb) : list string :=
  match locations webData ≫= locations_results with
  | Some rs => omap loc_id rs
  | None => []
  end.

(** The URL and headers of the initial, locations-filtered call. *)
Definition locations_request (query : string) (count : Z) (key : string) : Request :=
  let params :=
    Js.set "count" (Js.toString (Js.Math_min count 20))
      (Js.set "result_filter" "locations"
        (Js.set "search_lang" "en"
          (Js.set "q" query []))) in
  mkRequest web_search_endpoint params (fetch_headers key).

Definition performLocalSearch (query : string) (count : option Z) : M string :=
  let count := Js.nullish count 5 in
  checkRateLimit ;;;
  key <- (fun w => (Normal (apiKey w), w)) ;;
  webResponse <- fetch webApi (locations_request query count key) ;;
  if negb (Response.ok webResponse)
  then throw (api_error webResponse)
  else
    webData <- await (Response.json webResponse) ;;
    let locationIds := locationIds_of webData in
    if Nat.eqb (length locationIds) 0
    then performWebSearch query (Some count) None
    else
      both <- Promise_all2 (getPoisData locationIds) (getDescriptionsData locationIds) ;;
      sync (formatLocalResults (fst both) (snd both)).

(** ** Tool dispatch *)

(** The [arguments] object of a call: [query] is whatever the client
    sent; [count], when present, is a number, as the tool's input schema
    declares and the type guards assert. *)
Record Arguments_ : Type := mkArguments {
  query : option Js.value;
  count : option Z
}.

Record CallToolRequest : Type := mkCallToolRequest {
  tool_name : string;
  arguments : option Arguments_
}.

Record TextContent : Type := mkTextContent {
  type : string;
  text : string
}.

(** The envelope every call answers with. *)
Record CallToolResult : Type := mkCallToolResult {
  content : list TextContent;
  isError : bool
}.

(** [typeof args === "object" && args !== null && "query" in args &&
    typeof args.query === "string"]; [args] is an object here, the first
    two conjuncts hold. *)
Definition isBraveWebSearchArgs (args : Arguments_) : bool :=
  match query args with
  | Some q => String.eqb (Js.typeof q) "string"
  | None => false
  end.

Definition isBraveLocalSearchArgs (args : Arguments_) : bool :=
  match query args with
  | Some q => String.eqb (Js.typeof q) "string"
  | None => false
  end.

(** [args.query] once the guard has passed. *)
Definition query_string (args : Arguments_) : string :=
  match query args with
  | Some (Js.Str s) => s
  | _ => ""
  end.

Definition success (results : string) : CallToolResult :=
  mkCallToolResult [mkTextContent "text" results] false.

Definition failure (message : string) : CallToolResult :=
  mkCallToolResult [mkTextContent "text" message] true.

(** The handler registered for [CallToolRequestSchema]. *)
Definition callTool (request : CallToolRequest) : M CallToolResult :=
  try_catch
    (match arguments request with
     | None => throw "No arguments provided"
     | Some args =>
         if String.eqb (tool_name request) "brave_web_search" then
           if negb (isBraveWebSearchArgs args)
           then throw "Invalid arguments for brave_web_search"
           else
             results <- performWebSearch (query_string args)
                          (Some (Js.nullish (count args) 10)) None ;;
             ret (success results)
         else if String.eqb (tool_name request) "brave_local_search" then
           if negb (isBraveLocalSearchArgs args)
           then throw "Invalid arguments for brave_local_search"
           else
             results <- performLocalSearch (query_string args)
                          (Some (Js.nullish (count args) 5)) ;;
             ret (success results)
         else ret (failure ("Unknown tool: " ++ tool_name request))
     end)
    (fun error => ret (failure ("Error: " ++ error))).

(** * Notions used in the statements *)

(** The counters a run of the program can hold. *)
Definition counters_ok (rc : RequestCount) : Prop :=
  0 <= second rc <= RATE_LIMIT.perSecond /\ 0 <= month rc <= RATE_LIMIT.perMonth.

(** What the next call of [checkRateLimit] does in [w]: it reads the clock
    once. *)
Definition rate_check (w : World) : Completion unit * RequestCount :=
  checkRateLimit_at (clock w (ticks w)) (requestCount w).

(** The world once a call of [checkRateLimit] has read the clock and left
    the counters [rc]. *)
Definition after_check (rc : RequestCount) (w : World) : World :=
  mkWorld rc (clock w) (S (ticks w)) (apiKey w) (webApi w) (poisApi w)
    (descriptionsApi w) (poisSettlesFirst w) (sent w).

(** The world once [req] has gone out. *)
Definition after_send (req : Request) (w : World) : World :=
  mkWorld (requestCount w) (clock w) (ticks w) (apiKey w) (webApi w)
    (poisApi w) (descriptionsApi w) (poisSettlesFirst w)
    (sent w ++ [req])%list.

(** The text of a web result as the specification words it: the three
    labelled lines, an absent property as the empty string. *)
Definition web_block (r : WebResult) : string :=
  "Title: " ++ default "" (title r) ++ LF
  ++ "Description: " ++ default "" (description r) ++ LF
  ++ "URL: " ++ default "" (url r).

(** Blocks separated by [sep], written out by recursion. *)
Fixpoint separated_by (sep : string) (blocks : list string) : string :=
  match blocks with
  | [] => ""
  | b :: rest =>
      match rest with
      | [] => b
      | _ :: _ => b ++ sep ++ separated_by sep rest
      end
  end.

(** The web results of a body, none when [web] or [web.results] is absent. *)
Definition web_results_of (data : BraveWeb) : list WebResult :=
  match web data with
  | Some section => default [] (web_results section)
  | None => []
  end.

(** The delimiter line between the blocks of a local result. *)
Definition delimiter : string := LF ++ "---" ++ LF.

(** The seven labelled lines of a POI block, in their order. *)
Definition poi_block (poi_name addr tel rating_value rating_count price hours descr : string)
    : string :=
  "Name: " ++ poi_name ++ LF
  ++ "Address: " ++ addr ++ LF
  ++ "Phone: " ++ tel ++ LF
  ++ "Rating: " ++ rating_value ++ " (" ++ rating_count ++ " reviews)" ++ LF
  ++ "Price Range: " ++ price ++ LF
  ++ "Hours: " ++ hours ++ LF
  ++ "Description: " ++ descr ++ LF.

(** [shown] renders an optional text with default [dflt]: the default when
    the text is absent (or empty), the text itself otherwise. *)
Definition defaults_to (dflt : string) (field : option string) (shown : string) : Prop :=
  match field with
  | None => shown = dflt
  | Some s => shown = if decide (s = "") then dflt else s
  end.

(** [shown] renders an optional number with default [dflt]. *)
Definition number_defaults_to (dflt : string) (field : option Z) (shown : string) : Prop :=
  match field with
  | None => shown = dflt
  | Some n => shown = Js.toString n
  end.

(** The components of an address that are present and not empty, in the
    order street, locality, region, postal code. *)
Definition present_nonempty (component : option string) : list string :=
  match component with
  | Some s => if decide (s = "") then [] else [s]
  | None => []
  end.

Definition address_parts (poi : BraveLocation) : list string :=
  match address poi with
  | None => []
  | Some a =>
      (present_nonempty (streetAddress a) ++ present_nonempty (addressLocality a)
       ++ present_nonempty (addressRegion a) ++ present_nonempty (postalCode a))%list
  end.

(** No component of the address is there at all. *)
Definition address_absent (poi : BraveLocation) : Prop :=
  match address poi with
  | None => True
  | Some a =>
      streetAddress a = None /\ addressLocality a = None
      /\ addressRegion a = None /\ postalCode a = None
  end.

(** The block [formatPoi] returns for a POI, when it returns one. *)
Definition block_of (descData : BraveDescription) (poi : BraveLocation) : string :=
  match formatPoi descData poi with
  | Normal block => block
  | Throw _ => ""
  end.

(** The names of the members of [Object.prototype]. *)
Definition Object_prototype_names : list string :=
  "constructor" :: "__proto__" :: Js.Object_prototype_methods.

(** A place whose identifier is the name of a method every object
    inherits, and for which the upstream has no description. *)
Definition poi_named_toString : BraveLocation :=
  mkBraveLocation "toString" "Cafe" None None None None None.

(** A world for the examples: the process just started at time 0 with no
    key in the environment, a clock, an upstream that answers every request
    with 200 and the body chosen by the request's rank, and nothing sent. *)
Definition ok_response {A} (body : A) : Completion (Response.t A) :=
  Normal (Response.mk true 200 "OK" "" (Normal body)).

Definition sample_world (readings : nat -> Z) (web_bodies : nat -> BraveWeb) : World :=
  mkWorld (initial_requestCount 0) readings 0 (BRAVE_API_KEY None)
    (fun n _ => ok_response (web_bodies n))
    (fun _ _ => ok_response (mkBravePoiResponse None))
    (fun _ _ => ok_response (mkBraveDescription (Some ∅)))
    (fun _ => true) [].

(** A clock that advances two seconds between readings, and one that
    advances a hundred milliseconds. *)
Definition slow_clock (n : nat) : Z := 2000 * (Z.of_nat n + 1).
Definition fast_clock (n : nat) : Z := 100 * (Z.of_nat n + 1).

Definition one_web_result : BraveWeb :=
  mkBraveWeb
    (Some (mkWebSection (Some [mkWebResult (Some "T") (Some "D") (Some "U")])))
    None.

Definition one_location : BraveWeb :=
  mkBraveWeb None
    (Some (mkLocationsSection (Some [mkLocationResult (Some "loc1") None]))).

(** The upstream of a fallback: no locations for the first request, one web
    result for the next. *)
Definition fallback_bodies (n : nat) : BraveWeb :=
  match n with
  | O => mkBraveWeb None None
  | S _ => one_web_result
  end.

(** A call of the web search tool, for the examples. *)
Definition sample_call : CallToolRequest :=
  mkCallToolRequest "brave_web_search"
    (Some (mkArguments (Some (Js.Str "test")) (Some 25))).

(** A request names one of the two tools and carries arguments the guard
    of that tool accepts. *)
Definition well_formed_call (request : CallToolRequest) (args : Arguments_) : Prop :=
  arguments request = Some args
  /\ ((tool_name request = "brave_web_search" /\ isBraveWebSearchArgs args = true)
      \/ (tool_name request = "brave_local_search" /\ isBraveLocalSearchArgs args = true)).

(** The search a well-formed call runs. *)
Definition search_of (request : CallToolRequest) (args : Arguments_) : M string :=
  if String.eqb (tool_name request) "brave_web_search"
  then performWebSearch (query_string args) (Some (Js.nullish (count args) 10)) None
  else performLocalSearch (query_string args) (Some (Js.nullish (count args) 5)).

(** The computation [m] takes the counters along the relation [R], however
    it completes. *)
Definition counters_along (R : RequestCount -> RequestCount -> Prop) {A} (m : M A)
    : Prop :=
  forall w, R (requestCount w) (requestCount (snd (m w))).

(** ** Notions for the further properties *)

(** The computation [m] takes the world along the relation [R], however it
    completes. *)
Definition world_along (R : World -> World -> Prop) {A} (m : M A) : Prop :=
  forall w, R w (snd (m w)).

(** A request as the search client builds them: to one of the three
    endpoints, with the three headers and the key as the token. *)
Definition upstream_request (key : string) (req : Request) : Prop :=
  headers req = fetch_headers key
  /\ (endpoint req = web_search_endpoint
      \/ endpoint req = pois_endpoint
      \/ endpoint req = descriptions_endpoint).

(** [w'] follows [w]: the requests sent in between were added at the end
    of the log, each is an upstream request with the key of the process,
    the monthly counter went up by their number, and the key, the clock
    and the upstream are the same. *)
Definition follows (w w' : World) : Prop :=
  exists new,
    sent w' = (sent w ++ new)%list
    /\ Forall (upstream_request (apiKey w)) new
    /\ month (requestCount w') = month (requestCount w) + Z.of_nat (length new)
    /\ apiKey w' = apiKey w.

(** Tool calls served one after the other: their completions, in order,
    and the world left. *)
Fixpoint callTool_calls (requests : list CallToolRequest) (w : World)
    : list (Completion CallToolResult) * World :=
  match requests with
  | [] => ([], w)
  | request :: rest =>
      let (c, w1) := callTool request w in
      let (cs, w2) := callTool_calls rest w1 in
      (c :: cs, w2)
  end.

(** An identifier that is not the empty string, the test of
    [ids.filter(Boolean)]. *)
Definition nonempty_id (id : string) : Prop := Js.truthy id = true.

(** The query parameters of the two POI requests as a list: one [ids] pair
    per identifier kept. *)
Definition ids_params (ids : list string) : Js.URLSearchParams :=
  map (fun id => ("ids", id)) (filter nonempty_id ids).

(** A world for the examples of a local search that finds a place: process
    started at time 0, the given clock, a locations answer naming [loc1],
    and the details and description of that place. *)
Definition sample_poi : BraveLocation :=
  mkBraveLocation "loc1" "Cafe" (Some (mkAddress (Some "1 Main St") None None None))
    None (Some (mkRating (Some 4) None)) None None.

Definition local_world (readings : nat -> Z) : World :=
  mkWorld (initial_requestCount 0) readings 0 (BRAVE_API_KEY None)
    (fun _ _ => ok_response one_location)
    (fun _ _ => ok_response (mkBravePoiResponse (Some [sample_poi])))
    (fun _ _ => ok_response (mkBraveDescription (Some {["loc1" := "Good coffee"]})))
    (fun _ => true) [].

(** ** Tool registry *)

(** The declarations of the two tools: name, description and input schema
    ([type], [properties] with their descriptions and defaults,
    [required]). *)
Module Tool.

Module Property.
Record t : Type := mk {
  type : string;
  description : string;
  default : option Z
}.
End Property.

Module InputSchema.
Record t : Type := mk {
  type : string;
  properties : list (string * Property.t);
  required : list string
}.
End InputSchema.

Record t : Type := mk {
  name : string;
  description : string;
  inputSchema : InputSchema.t
}.

End Tool.

Definition WEB_SEARCH_TOOL : Tool.t :=
  Tool.mk "brave_web_search"
    ("Performs a web search using the Brave Search API, ideal for general queries, news, articles, and online content. "
     ++ "Use this for broad information gathering, recent events, or when you need diverse web sources. "
     ++ "Supports pagination, content filtering, and freshness controls. "
     ++ "Maximum 20 results per request, with offset for pagination. ")
    (Tool.InputSchema.mk "object"
       [ ("query",
          Tool.Property.mk "string" "Search query (max 400 chars, 50 words)" None);
         ("count",
          Tool.Property.mk "number" "Number of results (1-20, default 10)" (Some 10));
         ("offset",
          Tool.Property.mk "number" "Pagination offset (max 9, default 0)" (Some 0)) ]
       ["query"]).

Definition LOCAL_SEARCH_TOOL : Tool.t :=
  Tool.mk "brave_local_search"
    ("Searches for local businesses and places using Brave's Local Search API. "
     ++ "Best for queries related to physical locations, businesses, restaurants, services, etc. "
     ++ "Returns detailed information including:" ++ LF
     ++ "- Business names and addresses" ++ LF
     ++ "- Ratings and review counts" ++ LF
     ++ "- Phone numbers and opening hours" ++ LF
     ++ "Use this when the query implies 'near me' or mentions specific locations. "
     ++ "Automatically falls back to web search if no local results are found.")
    (Tool.InputSchema.mk "object"
       [ ("query",
          Tool.Property.mk "string"
            "Local search query (e.g. 'pizza near Central Park')" None);
         ("count",
          Tool.Property.mk "number" "Number of results (1-20, default 5)" (Some 5)) ]
       ["query"]).

(** The handler registered for [ListToolsRequestSchema]: the [tools] of its
    answer. *)
Definition listTools : list Tool.t := [WEB_SEARCH_TOOL; LOCAL_SEARCH_TOOL].

(** ** Command line and run mode *)

(** A number as [parseInt] gives it: [NaN] or an integer. *)
Inductive number : Type :=
| NaN
| Num (n : Z).

(** Truthiness of a number: [NaN] and zero are falsy. *)
Definition number_truthy (n : number) : bool :=
  match n with
  | NaN => false
  | Num z => negb (z =? 0)
  end.

(** The [options] object of [parseArgs]; a property not assigned is
    [undefined]. *)
Record Options : Type := mkOptions {
  port : option number;
  headless : option bool
}.

Inductive RunMode : Type :=
| HttpMode (listen_port : number)
| StdioMode.

Section CommandLine.

(** The built-in [parseInt(text, 10)]. *)
Variable parseInt : string -> number.

(** The body of the [for] loop of [parseArgs], from index [i] on: [args] is
    what is left of the arguments from [args[i]], so [i + 1 < args.length]
    says that an argument follows. *)
Fixpoint parseArgs_from (args : list string) (options : Options) : Options :=
  match args with
  | [] => options
  | arg :: rest =>
      match rest with
      | value :: rest' =>
          if String.eqb arg "--port"
          then parseArgs_from rest' (mkOptions (Some (parseInt value)) (headless options))
          else if String.eqb arg "--headless"
          then parseArgs_from rest (mkOptions (port options) (Some true))
          else parseArgs_from rest options
      | [] =>
          if String.eqb arg "--headless"
          then mkOptions (port options) (Some true)
          else options
      end
  end.

(** [parseArgs()], of [process.argv]. *)
Definition parseArgs (argv : list string) : Options :=
  parseArgs_from (drop 2 argv) (mkOptions None None).

(** The branch [runServer] takes: [if (options.port)]. *)
Definition runServer_mode (argv : list string) : RunMode :=
  match port (parseArgs argv) with
  | Some p => if number_truthy p then HttpMode p else StdioMode
  | None => StdioMode
  end.

End CommandLine.

(** [options] once the flag [--headless] has been seen among [args]. *)
Definition with_headless_of (args : list string) (options : Options) : Options :=
  mkOptions (port options)
    (if existsb (fun arg => String.eqb arg "--headless") args
     then Some true else headless options).

(** A [parseInt] for the examples: it knows two texts. *)
Definition sample_parseInt (text : string) : number :=
  if String.eqb text "8000" then Num 8000
  else if String.eqb text "0" then Num 0
  else NaN.

(** ** HTTP front ([index.ts]) *)

(** The request listener of [startHttpServer] with [handleSSE] and
    [handleStreamable], and the table [streamableSessions].  The server
    and transport objects of the SDK are known by the rank of their
    creation; what the SDK does when it is called (whether [connect] and
    [handleRequest] complete or throw, and which of the callbacks given to
    the transport it fires meanwhile) is given by [Sdk]. *)
Module Http.

Record Session : Type := mkSession {
  transport : nat;
  server : nat
}.

(** Of an incoming request: [req.method], the [pathname] of its URL and
    [req.headers['mcp-session-id']]. *)
Record IncomingMessage : Type := mkIncomingMessage {
  method : string;
  pathname : string;
  mcp_session_id : option string
}.

(** The two callbacks the program hands to a streamable transport;
    [onclose] reads [transport.sessionId], here its argument. *)
Inductive Callback : Type :=
| onsessioninitialized (sessionId : string)
| onclose (transport_sessionId : option string).

Record Handling : Type := mkHandling {
  callbacks : list Callback;
  outcome : Completion unit
}.

Record Sdk : Type := mkSdk {
  (** [serverInstance.connect(transport)] *)
  connect : nat -> nat -> Completion unit;
  (** [transport.handleRequest(req, res)] *)
  handleRequest : nat -> IncomingMessage -> Handling
}.

(** What the program does with the response object. *)
Inductive Action : Type :=
| Ended (statusCode : Z) (contentType : option string) (body : string)
| HandedTo (to_transport : nat)
| Untouched.

Inductive LogLine : Type :=
| NewSessionCreated (sessionId : string)
| SessionClosed (sessionId : string)
| SseConnectionError (message : string)
| StreamableConnectionError (message : string).

Record State : Type := mkState {
  streamableSessions : gmap string Session;
  (** how many server and transport objects have been created *)
  created : nat;
  console : list LogLine
}.

(** One callback of the transport [tr] created together with the server
    [srv]. *)
Definition fire (tr srv : nat) (st : State) (cb : Callback) : State :=
  match cb with
  | onsessioninitialized sessionId =>
      mkState (<[sessionId := mkSession tr srv]> (streamableSessions st))
        (created st) (console st ++ [NewSessionCreated sessionId])%list
  | onclose transport_sessionId =>
      match transport_sessionId with
      | Some sessionId =>
          if Js.truthy sessionId
          then mkState (delete sessionId (streamableSessions st))
                 (created st) (console st ++ [SessionClosed sessionId])%list
          else st
      | None => st
      end
  end.

Definition log (line : LogLine) (st : State) : State :=
  mkState (streamableSessions st) (created st) (console st ++ [line])%list.

(** [createServerInstance()] followed by [new ...Transport(...)]: the
    ranks of the two objects and the state that has counted them. *)
Definition create_pair (st : State) : nat * nat * State :=
  (created st, S (created st),
   mkState (streamableSessions st) (S (S (created st))) (console st)).

Definition handleSSE (sdk : Sdk) (req : IncomingMessage) (st : State)
    : Completion Action * State :=
  let '(serverInstance, tr, st1) := create_pair st in
  match connect sdk serverInstance tr with
  | Normal _ => (Normal (HandedTo tr), st1)
  | Throw error => (Normal (HandedTo tr), log (SseConnectionError error) st1)
  end.

Definition handleStreamable (sdk : Sdk) (req : IncomingMessage) (st : State)
    : Completion Action * State :=
  let sessionId := mcp_session_id req in
  if Js.truthy (Js.nullish sessionId "")
  then
    match streamableSessions st !! Js.nullish sessionId "" with
    | None => (Normal (Ended 404 None "Session not found"), st)
    | Some session =>
        let handling := handleRequest sdk (transport session) req in
        let st1 := foldl (fire (transport session) (server session)) st
                     (callbacks handling) in
        match outcome handling with
        | Normal _ => (Normal (HandedTo (transport session)), st1)
        | Throw error => (Throw error, st1)
        end
    end
  else if String.eqb (method req) "POST"
  then
    let '(serverInstance, tr, st1) := create_pair st in
    match connect sdk serverInstance tr with
    | Throw error => (Normal Untouched, log (StreamableConnectionError error) st1)
    | Normal _ =>
        let handling := handleRequest sdk tr req in
        let st2 := foldl (fire tr serverInstance) st1 (callbacks handling) in
        match outcome handling with
        | Normal _ => (Normal (HandedTo tr), st2)
        | Throw error =>
            (Normal (HandedTo tr), log (StreamableConnectionError error) st2)
        end
    end
  else (Normal (Ended 400 None "Invalid request"), st).

(** The listener of ['request']. *)
Definition on_request (sdk : Sdk) (req : IncomingMessage) (st : State)
    : Completion Action * State :=
  if String.eqb (pathname req) "/sse" then handleSSE sdk req st
  else if String.eqb (pathname req) "/mcp" then handleStreamable sdk req st
  else (Normal (Ended 404 (Some "text/plain") "Not Found"), st).

(** The server when it starts listening. *)
Definition initial_state : State := mkState ∅ 0 [].

End Http.

(** An SDK for the examples: [connect] completes, the request to initialize
    a session fires [onsessioninitialized] with the identifier [abc], a
    [DELETE] fires [onclose] for that session, anything else fires
    nothing. *)
Definition sample_sdk : Http.Sdk :=
  Http.mkSdk (fun _ _ => Normal tt)
    (fun _ req =>
       if String.eqb (Http.method req) "DELETE"
       then Http.mkHandling [Http.onclose (Some "abc")] (Normal tt)
       else match Http.mcp_session_id req with
            | None => Http.mkHandling [Http.onsessioninitialized "abc"] (Normal tt)
            | Some _ => Http.mkHandling [] (Normal tt)
            end).

(** * Properties *)

(** ** Rate limiter *)

Section RateLimiter.

Implicit Types (rc : RequestCount) (now : Z).

Lemma counters_ok_initial now : counters_ok (initial_requestCount now).
Proof. unfold counters_ok, RATE_LIMIT.perSecond, RATE_LIMIT.perMonth; simpl; lia. Qed.

Lemma checkRateLimit_at_cases now rc :
  let rc1 := if 1000 <? now - lastReset rc
             then mkRequestCount 0 (month rc) now else rc in
  (checkRateLimit_at now rc = (Throw "Rate limit exceeded", rc1)
   /\ (1 <= second rc1 \/ 15000 <= month rc1))
  \/ (checkRateLimit_at now rc
        = (Normal tt, mkRequestCount (second rc1 + 1) (month rc1 + 1) (lastReset rc1))
      /\ second rc1 < 1 /\ month rc1 < 15000).
Proof.
  intros rc1. unfold checkRateLimit_at. fold rc1.
  unfold RATE_LIMIT.perSecond, RATE_LIMIT.perMonth.
  destruct (1 <=? second rc1) eqn:Hs; [left; split; [reflexivity | lia] |].
  destruct (15000 <=? month rc1) eqn:Hm; [left; split; [reflexivity | lia] |].
  right. split; [reflexivity | lia].
Qed.

Lemma counters_ok_checkRateLimit_at now rc :
  counters_ok rc -> counters_ok (snd (checkRateLimit_at now rc)).
Proof.
  unfold counters_ok, RATE_LIMIT.perSecond, RATE_LIMIT.perMonth. intros Hok.
  destruct (checkRateLimit_at_cases now rc) as [[-> _] | [-> H]]; simpl in *;
    destruct (1000 <? now - lastReset rc); simpl in *; lia.
Qed.

Lemma counters_ok_calls nows rc :
  counters_ok rc -> counters_ok (snd (checkRateLimit_calls nows rc)).
Proof.
  revert rc. induction nows as [| now rest IH]; intros rc Hok; simpl; [exact Hok |].
  pose proof (counters_ok_checkRateLimit_at now rc Hok) as H1.
  destruct (checkRateLimit_at now rc) as [c rc1]. simpl in H1.
  specialize (IH rc1 H1).
  destruct (checkRateLimit_calls rest rc1) as [cs rc2]. exact IH.
Qed.

(** The per-month counter never goes down in a call. *)
Lemma month_checkRateLimit_at now rc :
  month rc <= month (snd (checkRateLimit_at now rc)).
Proof.
  destruct (checkRateLimit_at_cases now rc) as [[-> _] | [-> _]]; simpl;
    destruct (1000 <? now - lastReset rc); simpl; lia.
Qed.

(** At the monthly limit a call throws and leaves the counter where it is. *)
Lemma exhausted_checkRateLimit_at now rc :
  15000 <= month rc ->
  fst (checkRateLimit_at now rc) = Throw "Rate limit exceeded"
  /\ month (snd (checkRateLimit_at now rc)) = month rc.
Proof.
  intros Hm.
  destruct (checkRateLimit_at_cases now rc) as [[-> _] | [-> H]]; simpl in *;
    destruct (1000 <? now - lastReset rc); simpl in *; (split; [reflexivity || lia | lia]).
Qed.

End RateLimiter.

Section RateLimiterClaims.

Implicit Types (rc : RequestCount) (now : Z).

(** Without a reset, a call that finds the per-second counter at its limit
    throws and changes nothing. *)
Lemma checkRateLimit_at_same_window now rc :
  1 <= second rc \/ 15000 <= month rc ->
  now - lastReset rc <= 1000 ->
  checkRateLimit_at now rc = (Throw "Rate limit exceeded", rc).
Proof.
  intros Hfull Hwin.
  pose proof (checkRateLimit_at_cases now rc) as Hc. cbv zeta in Hc.
  replace (1000 <? now - lastReset rc) with false in Hc by (symmetry; apply Z.ltb_ge; lia).
  destruct Hc as [[Hthrow _] | [_ Hlow]]; [exact Hthrow | lia].
Qed.

(** What a call leaves behind when the counter was not negative: either it
    threw on a full counter, or it passed and the per-second counter is 1. *)
Lemma checkRateLimit_at_leaves_full now rc :
  0 <= second rc ->
  let rc1 := snd (checkRateLimit_at now rc) in
  1 <= second rc1 \/ 15000 <= month rc1.
Proof.
  intros Hs rc1. subst rc1.
  destruct (checkRateLimit_at_cases now rc) as [[-> H] | [-> H]]; simpl.
  - exact H.
  - left. destruct (1000 <? now - lastReset rc); simpl in *; lia.
Qed.

(** A call that passes leaves the per-second counter at 1 and the monthly
    counter one higher. *)
Lemma checkRateLimit_at_pass now rc :
  0 <= second rc ->
  fst (checkRateLimit_at now rc) = Normal tt ->
  second (snd (checkRateLimit_at now rc)) = 1
  /\ month (snd (checkRateLimit_at now rc)) = month rc + 1
  /\ month rc < 15000.
Proof.
  intros Hs Hpass.
  destruct (checkRateLimit_at_cases now rc) as [[Heq _] | [Heq Hlow]];
    rewrite Heq in *; simpl in *; [discriminate |].
  destruct (1000 <? now - lastReset rc); simpl in *; lia.
Qed.

(** C2 (as stated, refuted).  Exactly 1000 ms after the last reset the
    window is not reset: in a process started at time 0, a first call at
    time 0 passes and a call at time 1000 throws, although the monthly
    counter is far from its limit.  And with the monthly counter at 15000,
    a call long after the last reset resets the window and throws all the
    same. *)
Lemma checkRateLimit_at_1000ms_counterexample :
  checkRateLimit_calls [0; 1000] (initial_requestCount 0)
  = ([Normal tt; Throw "Rate limit exceeded"], mkRequestCount 1 1 0)
  /\ 1000 - lastReset (snd (checkRateLimit_at 0 (initial_requestCount 0))) >= 1000
  /\ 5000 - lastReset (mkRequestCount 0 15000 0) >= 1000
  /\ checkRateLimit_at 5000 (mkRequestCount 0 15000 0)
     = (Throw "Rate limit exceeded", mkRequestCount 0 15000 5000).
Proof.
  split; [reflexivity |].
  split; [vm_compute; discriminate |].
  split; [vm_compute; discriminate | reflexivity].
Qed.

(** C2 (amended).  From counters that are not negative: after any call, a
    second call that falls in the same window (no more than 1000 ms after
    the last reset) throws 'Rate limit exceeded' and leaves the counters
    alone; a call more than 1000 ms after the last reset first zeroes the
    per-second counter and moves the reset timestamp to the present, and
    then passes when the monthly counter is below 15000 and throws
    otherwise; a call that passes leaves the per-second counter at 1 and
    the monthly counter one higher. *)
Theorem checkRateLimit_window now1 now2 rc :
  0 <= second rc ->
  let rc1 := snd (checkRateLimit_at now1 rc) in
  (now2 - lastReset rc1 <= 1000 ->
   checkRateLimit_at now2 rc1 = (Throw "Rate limit exceeded", rc1))
  /\ (1000 < now2 - lastReset rc1 -> month rc1 < 15000 ->
      checkRateLimit_at now2 rc1
        = (Normal tt, mkRequestCount (0 + 1) (month rc1 + 1) now2))
  /\ (1000 < now2 - lastReset rc1 -> 15000 <= month rc1 ->
      checkRateLimit_at now2 rc1
        = (Throw "Rate limit exceeded", mkRequestCount 0 (month rc1) now2))
  /\ (fst (checkRateLimit_at now1 rc) = Normal tt ->
      second rc1 = 1 /\ month rc1 = month rc + 1).
Proof.
  intros Hs rc1.
  pose proof (checkRateLimit_at_leaves_full now1 rc Hs) as Hfull. fold rc1 in Hfull.
  split; [| split; [| split]].
  - intros Hwin. apply checkRateLimit_at_same_window; assumption.
  - intros Hlate Hm. unfold checkRateLimit_at.
    replace (1000 <? now2 - lastReset rc1) with true by (symmetry; apply Z.ltb_lt; lia).
    unfold RATE_LIMIT.perSecond, RATE_LIMIT.perMonth. simpl.
    replace (15000 <=? month rc1) with false by (symmetry; apply Z.leb_gt; lia).
    reflexivity.
  - intros Hlate Hm. unfold checkRateLimit_at.
    replace (1000 <? now2 - lastReset rc1) with true by (symmetry; apply Z.ltb_lt; lia).
    unfold RATE_LIMIT.perSecond, RATE_LIMIT.perMonth. simpl.
    replace (15000 <=? month rc1) with true by (symmetry; apply Z.leb_le; lia).
    reflexivity.
  - subst rc1. intros Hpass.
    destruct (checkRateLimit_at_pass now1 rc Hs Hpass) as (H1 & H2 & _).
    split; assumption.
Qed.

Lemma checkRateLimit_window_witness :
  checkRateLimit_at 500 (snd (checkRateLimit_at 0 (initial_requestCount 0)))
    = (Throw "Rate limit exceeded", mkRequestCount 1 1 0)
  /\ checkRateLimit_at 1001 (snd (checkRateLimit_at 0 (initial_requestCount 0)))
       = (Normal tt, mkRequestCount 1 2 1001).
Proof.
  split.
  - apply (checkRateLimit_window 0 500 (initial_requestCount 0)); simpl; lia.
  - apply (checkRateLimit_window 0 1001 (initial_requestCount 0)); simpl; lia.
Defined.

(** Over a succession of calls the per-month counter does not go down, and
    from 15000 on every call throws and the counter stays. *)
Lemma month_checkRateLimit_calls (nows : list Z) rc :
  month rc <= month (snd (checkRateLimit_calls nows rc))
  /\ (15000 <= month rc ->
      Forall (fun c => c = Throw "Rate limit exceeded")
        (fst (checkRateLimit_calls nows rc))
      /\ month (snd (checkRateLimit_calls nows rc)) = month rc).
Proof.
  revert rc. induction nows as [| now rest IH]; intros rc; simpl.
  - split; [lia | intros _; split; [constructor | reflexivity]].
  - pose proof (month_checkRateLimit_at now rc) as Hmono.
    pose proof (exhausted_checkRateLimit_at now rc) as Hfull.
    destruct (checkRateLimit_at now rc) as [c rc1]. simpl in Hmono, Hfull.
    destruct (IH rc1) as [IHmono IHfull].
    destruct (checkRateLimit_calls rest rc1) as [cs rc2]. simpl in *.
    split; [lia |].
    intros Hm. destruct (Hfull Hm) as [-> Heq].
    destruct IHfull as [Hall Hlast]; [lia |].
    split; [constructor; [reflexivity | exact Hall] | lia].
Qed.

End RateLimiterClaims.

(** ** Start-up *)

(** C10.  Whatever the environment holds, the key is not empty and the
    start-up check lets the process proceed with it: the branch that
    reports a missing key and exits with code 1 is never taken. *)
Theorem check_api_key_never_exits (env : option string) :
  BRAVE_API_KEY env <> ""
  /\ check_api_key env = Proceed (BRAVE_API_KEY env)
  /\ (forall code stderr, check_api_key env <> Exit code stderr)
  /\ (env = None \/ env = Some "" ->
      BRAVE_API_KEY env = "BSAPvn4j_7Yc1vqP6mBse4_yZRWA2p4").
Proof.
  assert (Htruthy : Js.truthy (BRAVE_API_KEY env) = true).
  { destruct env as [[| c s] |]; reflexivity. }
  assert (Hgo : check_api_key env = Proceed (BRAVE_API_KEY env)).
  { unfold check_api_key. cbv zeta. rewrite Htruthy. reflexivity. }
  repeat split.
  - intros Hempty. rewrite Hempty in Htruthy. discriminate.
  - exact Hgo.
  - intros code stderr. rewrite Hgo. discriminate.
  - intros [-> | ->]; reflexivity.
Qed.

Lemma check_api_key_never_exits_witness :
  BRAVE_API_KEY (Some "") = "BSAPvn4j_7Yc1vqP6mBse4_yZRWA2p4".
Proof.
  apply (check_api_key_never_exits (Some "")). right. reflexivity.
Defined.

(** ** Running the monad *)

Section Monad.

Context {A B : Type}.

Lemma bind_Normal (m : M A) (k : A -> M B) w a w' :
  m w = (Normal a, w') -> bind m k w = k a w'.
Proof. intros Hm. unfold bind. rewrite Hm. reflexivity. Qed.

Lemma bind_Throw (m : M A) (k : A -> M B) w e w' :
  m w = (Throw e, w') -> bind m k w = (Throw e, w').
Proof. intros Hm. unfold bind. rewrite Hm. reflexivity. Qed.

End Monad.

Lemma checkRateLimit_run w :
  checkRateLimit w = (fst (rate_check w), after_check (snd (rate_check w)) w).
Proof.
  unfold checkRateLimit, bind, Date_now, set_requestCount, after_check, rate_check.
  simpl. destruct (checkRateLimit_at (clock w (ticks w)) (requestCount w)).
  reflexivity.
Qed.

Lemma checkRateLimit_Normal w :
  fst (rate_check w) = Normal tt ->
  checkRateLimit w = (Normal tt, after_check (snd (rate_check w)) w).
Proof. intros H. rewrite checkRateLimit_run, H. reflexivity. Qed.

Lemma checkRateLimit_Throw w e :
  fst (rate_check w) = Throw e ->
  checkRateLimit w = (Throw e, after_check (snd (rate_check w)) w).
Proof. intros H. rewrite checkRateLimit_run, H. reflexivity. Qed.

(** A search function whose rate check throws stops there. *)
Lemma performWebSearch_throttled query count offset w e :
  fst (rate_check w) = Throw e ->
  performWebSearch query count offset w
  = (Throw e, after_check (snd (rate_check w)) w).
Proof.
  intros He. unfold performWebSearch. cbv zeta.
  apply bind_Throw, checkRateLimit_Throw, He.
Qed.

Lemma getPoisData_throttled ids w e :
  fst (rate_check w) = Throw e ->
  getPoisData ids w = (Throw e, after_check (snd (rate_check w)) w).
Proof.
  intros He. unfold getPoisData. apply bind_Throw, checkRateLimit_Throw, He.
Qed.

Lemma getDescriptionsData_throttled ids w e :
  fst (rate_check w) = Throw e ->
  getDescriptionsData ids w = (Throw e, after_check (snd (rate_check w)) w).
Proof.
  intros He. unfold getDescriptionsData.
  apply bind_Throw, checkRateLimit_Throw, He.
Qed.

(** [performWebSearch] once its rate check has passed: one request goes
    out and the answer decides. *)
Lemma performWebSearch_admitted_run query count offset w :
  fst (rate_check w) = Normal tt ->
  let req := web_search_request query (Js.nullish count 10) (Js.nullish offset 0)
               (apiKey w) in
  performWebSearch query count offset w
  = (match webApi w (length (sent w)) req with
     | Normal response =>
         if Response.ok response
         then match Response.json response with
              | Normal data => Normal (formatWebResults data)
              | Throw e => Throw e
              end
         else Throw (api_error response)
     | Throw e => Throw e
     end,
     after_send req (after_check (snd (rate_check w)) w)).
Proof.
  intros Hpass req. unfold performWebSearch. cbv zeta.
  rewrite (bind_Normal _ _ _ _ _ (checkRateLimit_Normal w Hpass)).
  unfold bind, fetch. simpl. fold req.
  destruct (webApi w (length (sent w)) req) as [response | e]; [| reflexivity].
  destruct (Response.ok response); simpl; [| reflexivity].
  unfold await, ret. destruct (Response.json response); reflexivity.
Qed.

(** ** Web search *)

Lemma join_separated_by sep (blocks : list string) :
  Js.join sep blocks = separated_by sep blocks.
Proof.
  unfold Js.join.
  induction blocks as [| b rest IH]; [reflexivity |].
  destruct rest as [| b' rest']; [reflexivity |].
  change (b ++ sep ++ String.concat sep (b' :: rest')
          = b ++ sep ++ separated_by sep (b' :: rest')).
  rewrite IH. reflexivity.
Qed.

Lemma prop_or_empty (p : option string) : Js.prop_or p "" = default "" p.
Proof. destruct p as [[| c s] |]; reflexivity. Qed.

Lemma formatWebResult_web_block r : formatWebResult r = web_block r.
Proof.
  unfold formatWebResult, web_block. cbv zeta.
  rewrite !prop_or_empty. reflexivity.
Qed.

Lemma formatWebResults_blocks data :
  formatWebResults data
  = separated_by (LF ++ LF) (map web_block (web_results_of data)).
Proof.
  unfold formatWebResults, web_results_of. cbv zeta.
  rewrite join_separated_by. f_equal.
  destruct (web data) as [[[rs |]] |]; simpl;
    try reflexivity.
  induction rs as [| r rs IH]; [reflexivity |].
  simpl. rewrite formatWebResult_web_block. f_equal. exact IH.
Qed.

Lemma web_search_request_params query count offset key :
  20 < count ->
  searchParams (web_search_request query count offset key)
  = [("q", query); ("count", "20"); ("offset", Js.toString offset)].
Proof.
  intros Hbig. unfold web_search_request, Js.Math_min. cbv zeta.
  rewrite Z.min_r by lia. reflexivity.
Qed.

(** C4.  Called with a count above 20, the web search sends at most one
    request, and any request it sends carries exactly one [count]
    parameter, equal to 20; when the rate check passes the request does go
    out, to the web search endpoint, with the query, the count 20 and the
    offset as given. *)
Theorem performWebSearch_clamps_count query (count : Z) offset w :
  20 < count ->
  exists new,
    sent (snd (performWebSearch query (Some count) offset w)) = (sent w ++ new)%list
    /\ Forall (fun req => Js.getAll "count" (searchParams req) = ["20"]) new
    /\ (fst (rate_check w) = Normal tt ->
        exists req,
          new = [req]
          /\ endpoint req = web_search_endpoint
          /\ searchParams req
             = [("q", query); ("count", "20");
                ("offset", Js.toString (Js.nullish offset 0))]).
Proof.
  intros Hbig.
  destruct (fst (rate_check w)) as [[] | e] eqn:Hcheck.
  - rewrite (performWebSearch_admitted_run query (Some count) offset w Hcheck).
    cbv zeta. simpl Js.nullish at 1 2.
    set (req := web_search_request query count (Js.nullish offset 0) (apiKey w)).
    pose proof (web_search_request_params query count (Js.nullish offset 0)
                  (apiKey w) Hbig) as Hparams. fold req in Hparams.
    exists [req]. split; [reflexivity |]. split.
    + constructor; [| constructor]. rewrite Hparams. reflexivity.
    + intros _. exists req. split; [reflexivity |]. split; [reflexivity | exact Hparams].
  - rewrite (performWebSearch_throttled query (Some count) offset w e Hcheck).
    exists []. split; [simpl; rewrite app_nil_r; reflexivity |].
    split; [constructor | intros Habs; discriminate].
Qed.

Lemma performWebSearch_clamps_count_witness :
  20 < 25
  /\ exists new,
       sent (snd (performWebSearch "test" (Some 25) None
                    (sample_world slow_clock (fun _ => one_web_result))))
       = new
       /\ Forall (fun req => Js.getAll "count" (searchParams req) = ["20"]) new
       /\ length new = 1%nat.
Proof.
  split; [lia |].
  destruct (performWebSearch_clamps_count "test" 25 None
              (sample_world slow_clock (fun _ => one_web_result)))
    as (new & Hsent & Hall & Hone); [lia |].
  exists new. split; [exact Hsent |]. split; [exact Hall |].
  destruct Hone as (req & -> & _); reflexivity.
Defined.

(** C5.  When the rate check passes and the upstream answers the request
    with a successful response whose body parses, the web search returns
    the blocks 'Title: ..', 'Description: ..', 'URL: ..' of the results,
    one block per result in order, an absent property as the empty string,
    separated by a blank line; a body with the single result
    [{title: T, description: D, url: U}] gives exactly
    'Title: T\nDescription: D\nURL: U'. *)
Theorem performWebSearch_text query count offset w response data :
  fst (rate_check w) = Normal tt ->
  webApi w (length (sent w))
    (web_search_request query (Js.nullish count 10) (Js.nullish offset 0) (apiKey w))
  = Normal response ->
  Response.ok response = true ->
  Response.json response = Normal data ->
  fst (performWebSearch query count offset w)
  = Normal (separated_by (LF ++ LF) (map web_block (web_results_of data)))
  /\ (forall T D U,
        web data = Some (mkWebSection (Some [mkWebResult (Some T) (Some D) (Some U)])) ->
        fst (performWebSearch query count offset w)
        = Normal ("Title: " ++ T ++ LF ++ "Description: " ++ D ++ LF ++ "URL: " ++ U)).
Proof.
  intros Hpass Hanswer Hok Hjson.
  assert (Hrun : fst (performWebSearch query count offset w)
                 = Normal (formatWebResults data)).
  { rewrite (performWebSearch_admitted_run query count offset w Hpass).
    cbv zeta. rewrite Hanswer. simpl. rewrite Hok, Hjson. reflexivity. }
  rewrite Hrun, formatWebResults_blocks. split; [reflexivity |].
  intros T D U Hweb. unfold web_results_of. rewrite Hweb. reflexivity.
Qed.

Lemma performWebSearch_text_witness :
  fst (performWebSearch "test" (Some 25) None
         (sample_world slow_clock (fun _ => one_web_result)))
  = Normal ("Title: T" ++ LF ++ "Description: D" ++ LF ++ "URL: U").
Proof.
  eapply (performWebSearch_text "test" (Some 25) None
            (sample_world slow_clock (fun _ => one_web_result))
            (Response.mk true 200 "OK" "" (Normal one_web_result)) one_web_result);
    reflexivity.
Defined.

(** ** Local result formatter *)

Lemma or_else_nonempty c s d : Js.or_else (String c s) d = String c s.
Proof. reflexivity. Qed.

Lemma prop_or_defaults_to dflt field : defaults_to dflt field (Js.prop_or field dflt).
Proof.
  destruct field as [[| c s] |]; simpl; [reflexivity | | reflexivity].
  destruct (decide (String c s = "")) as [Habs | _]; [discriminate | reflexivity].
Qed.

Lemma filter_component (component : option string) (rest : list string) :
  filter (fun part => part <> "") (Js.nullish component "" :: rest)
  = (present_nonempty component ++ filter (fun part => part <> "") rest)%list.
Proof.
  destruct component as [s |]; simpl.
  - destruct (decide (s = "")) as [-> | Hne].
    + rewrite filter_cons_False by (intros H; apply H; reflexivity). reflexivity.
    + rewrite filter_cons_True by exact Hne. reflexivity.
  - rewrite filter_cons_False by (intros H; apply H; reflexivity). reflexivity.
Qed.

Lemma present_nonempty_Forall component :
  Forall (fun s => s <> "") (present_nonempty component).
Proof.
  destruct component as [s |]; simpl; [| constructor].
  destruct (decide (s = "")); constructor; [assumption | constructor].
Qed.

(** Joining texts of which the first is not empty gives a text that is not
    empty. *)
Lemma join_nonempty sep (b : string) (rest : list string) :
  b <> "" -> exists c s, Js.join sep (b :: rest) = String c s.
Proof.
  intros Hb. destruct b as [| c t]; [contradiction |].
  unfold Js.join. destruct rest as [| b' rest']; simpl; eauto.
Qed.

Lemma formatAddress_parts poi :
  formatAddress poi
  = match address_parts poi with
    | [] => "N/A"
    | _ :: _ => separated_by ", " (address_parts poi)
    end.
Proof.
  unfold formatAddress.
  assert (Hparts :
    filter (fun part => part <> "")
      [ Js.nullish (address poi ≫= streetAddress) "";
        Js.nullish (address poi ≫= addressLocality) "";
        Js.nullish (address poi ≫= addressRegion) "";
        Js.nullish (address poi ≫= postalCode) "" ]
    = address_parts poi).
  { rewrite !filter_component. unfold address_parts.
    destruct (address poi) as [a |]; simpl; [| reflexivity].
    rewrite app_nil_r. reflexivity. }
  rewrite Hparts.
  assert (Hne : Forall (fun s => s <> "") (address_parts poi)).
  { unfold address_parts. destruct (address poi) as [a |]; [| constructor].
    repeat apply Forall_app_2; apply present_nonempty_Forall. }
  destruct (address_parts poi) as [| b rest] eqn:Heq; [reflexivity |].
  inversion Hne as [| ? ? Hb _]; subst.
  destruct (join_nonempty ", " b rest Hb) as (c & s & Hjoin).
  rewrite Hjoin, or_else_nonempty, <- Hjoin. apply join_separated_by.
Qed.

Lemma address_absent_parts poi : address_absent poi -> address_parts poi = [].
Proof.
  unfold address_absent, address_parts.
  destruct (address poi) as [a |]; [| reflexivity].
  intros (-> & -> & -> & ->). reflexivity.
Qed.

Lemma inherited_None (key : string) :
  ~ In key Object_prototype_names -> Js.inherited key = None.
Proof.
  intros Hnot. unfold Js.inherited.
  destruct (String.eqb key "constructor") eqn:Hc.
  { apply String.eqb_eq in Hc. exfalso. apply Hnot. left. symmetry. exact Hc. }
  destruct (String.eqb key "__proto__") eqn:Hp.
  { apply String.eqb_eq in Hp. exfalso. apply Hnot. right. left. symmetry. exact Hp. }
  destruct (existsb (String.eqb key) Js.Object_prototype_methods) eqn:Hm;
    [| reflexivity].
  apply existsb_exists in Hm as (member & Hin & Heq).
  apply String.eqb_eq in Heq. subst member.
  exfalso. apply Hnot. right. right. exact Hin.
Qed.

Lemma map_completion_Normal {A B} (f : A -> Completion B) (g : A -> B) (l : list A) :
  (forall a, f a = Normal (g a)) -> map_completion f l = Normal (map g l).
Proof.
  intros Hf. induction l as [| a rest IH]; [reflexivity |].
  simpl. rewrite Hf, IH. reflexivity.
Qed.

Lemma formatPoi_block_of descData table poi :
  descriptions descData = Some table ->
  formatPoi descData poi = Normal (block_of descData poi).
Proof. intros Htable. unfold block_of, formatPoi. rewrite Htable. reflexivity. Qed.

Lemma block_of_nonempty descData table poi :
  descriptions descData = Some table -> block_of descData poi <> "".
Proof. intros Htable. unfold block_of, formatPoi. rewrite Htable. discriminate. Qed.

(** With its [descriptions] object the formatter returns a text. *)
Lemma formatLocalResults_returns poisData descData table :
  descriptions descData = Some table ->
  exists text, formatLocalResults poisData descData = Normal text.
Proof.
  intros Htable. unfold formatLocalResults.
  rewrite (map_completion_Normal _ (block_of descData))
    by (intros a; apply (formatPoi_block_of descData table a Htable)).
  eauto.
Qed.

(** C6 (the code departs from the claim).  For a place whose identifier is
    [toString] and for which the descriptions hold nothing, the formatter
    does not print 'No description available': the lookup
    [descData.descriptions[poi.id]] finds the method that every object
    inherits, which is truthy, and the block ends with its text. *)
Theorem formatLocalResults_inherited_description :
  formatLocalResults (mkBravePoiResponse (Some [poi_named_toString]))
    (mkBraveDescription (Some ∅))
  = Normal ("Name: Cafe" ++ LF
            ++ "Address: N/A" ++ LF
            ++ "Phone: N/A" ++ LF
            ++ "Rating: N/A (0 reviews)" ++ LF
            ++ "Price Range: N/A" ++ LF
            ++ "Hours: N/A" ++ LF
            ++ "Description: function toString() { [native code] }" ++ LF).
Proof. reflexivity. Qed.

(** X17.  The local-result formatter.  An absent or empty POI collection
    gives exactly 'No local results found', whatever the descriptions.
    When the body of the descriptions has its [descriptions] object, the
    formatter returns, for a collection that is not empty, one block per
    POI, in order, separated by the delimiter line.  A block is the lines
    Name, Address, Phone, Rating, Price Range, Hours, Description in this
    order; the address is 'N/A' when every component is absent (or empty)
    and the present, non-empty components joined by ', ' otherwise;
    phone, price range and hours default to 'N/A', the rating value to
    'N/A' and the rating count to 0; the description is the own property
    of [descriptions] under the identifier, 'No description available'
    when that is empty or when there is none and the identifier is not the
    name of a member of [Object.prototype], and the text of that member
    otherwise.  Without a [descriptions] object a collection that is not
    empty makes the formatter throw a [TypeError]. *)
Theorem formatLocalResults_blocks (poisData : BravePoiResponse) (descData : BraveDescription) :
  (results poisData = None \/ results poisData = Some [] ->
   formatLocalResults poisData descData = Normal "No local results found")
  /\ (forall table poi rest,
        descriptions descData = Some table ->
        results poisData = Some (poi :: rest) ->
        formatLocalResults poisData descData
        = Normal (separated_by delimiter (map (block_of descData) (poi :: rest)))
        /\ length (map (block_of descData) (poi :: rest)) = length (poi :: rest))
  /\ (forall table poi,
        descriptions descData = Some table ->
        exists addr tel rating_value rating_count price hours descr,
          formatPoi descData poi
          = Normal (poi_block (name poi) addr tel rating_value rating_count
                      price hours descr)
          /\ (address_absent poi -> addr = "N/A")
          /\ (address_parts poi = [] -> addr = "N/A")
          /\ (address_parts poi <> [] -> addr = separated_by ", " (address_parts poi))
          /\ defaults_to "N/A" (phone poi) tel
          /\ number_defaults_to "N/A" (rating poi ≫= ratingValue) rating_value
          /\ number_defaults_to "0" (rating poi ≫= ratingCount) rating_count
          /\ defaults_to "N/A" (priceRange poi) price
          /\ (openingHours poi = None \/ openingHours poi = Some [] -> hours = "N/A")
          /\ (forall h hs, openingHours poi = Some (h :: hs) -> h <> "" ->
              hours = separated_by ", " (h :: hs))
          /\ (forall text, table !! poi_id poi = Some text ->
              defaults_to "No description available" (Some text) descr)
          /\ (table !! poi_id poi = None ->
              ~ In (poi_id poi) Object_prototype_names ->
              descr = "No description available")
          /\ (forall member, table !! poi_id poi = None ->
              Js.inherited (poi_id poi) = Some member -> descr = member))
  /\ (forall poi rest,
        descriptions descData = None ->
        results poisData = Some (poi :: rest) ->
        formatLocalResults poisData descData
        = Throw ("Cannot read properties of undefined (reading '"
                 ++ poi_id poi ++ "')")).
Proof.
  split; [| split; [| split]].
  - unfold formatLocalResults. intros [-> | ->]; reflexivity.
  - intros table poi rest Htable Hres. split; [| apply length_map].
    unfold formatLocalResults. rewrite Hres. cbn [Js.nullish].
    rewrite (map_completion_Normal _ (block_of descData))
      by (intros a; apply (formatPoi_block_of descData table a Htable)).
    change (map (block_of descData) (poi :: rest))
      with (block_of descData poi :: map (block_of descData) rest).
    destruct (join_nonempty (LF ++ "---" ++ LF) (block_of descData poi)
                (map (block_of descData) rest)
                (block_of_nonempty descData table poi Htable)) as (c & s & Hjoin).
    rewrite Hjoin, or_else_nonempty, <- Hjoin, join_separated_by. reflexivity.
  - intros table poi Htable.
    exists (formatAddress poi), (Js.prop_or (phone poi) "N/A"),
      (from_option Js.toString "N/A" (rating poi ≫= ratingValue)),
      (Js.toString (Js.nullish (rating poi ≫= ratingCount) 0)),
      (Js.prop_or (priceRange poi) "N/A"),
      (Js.or_else (Js.join ", " (Js.nullish (openingHours poi) [])) "N/A"),
      (description_or_default table (poi_id poi)).
    split; [unfold formatPoi; rewrite Htable; reflexivity |].
    split; [intros Habs; rewrite formatAddress_parts, (address_absent_parts poi Habs);
            reflexivity |].
    split; [intros Hnone; rewrite formatAddress_parts, Hnone; reflexivity |].
    split; [intros Hsome; rewrite formatAddress_parts;
            destruct (address_parts poi); [contradiction | reflexivity] |].
    split; [apply prop_or_defaults_to |].
    split; [destruct (rating poi ≫= ratingValue); reflexivity |].
    split; [destruct (rating poi ≫= ratingCount); reflexivity |].
    split; [apply prop_or_defaults_to |].
    split; [intros [-> | ->]; reflexivity |].
    split.
    { intros h hs -> Hh. simpl Js.nullish.
      destruct (join_nonempty ", " h hs Hh) as (c & s & Hjoin).
      rewrite Hjoin, or_else_nonempty, <- Hjoin. apply join_separated_by. }
    split.
    { intros text Hown. unfold description_or_default. rewrite Hown.
      apply (prop_or_defaults_to "No description available" (Some text)). }
    split.
    { intros Hnone Hname. unfold description_or_default.
      rewrite Hnone, (inherited_None _ Hname). reflexivity. }
    intros member Hnone Hmember. unfold description_or_default.
    rewrite Hnone, Hmember. reflexivity.
  - intros poi rest Hnone Hres. unfold formatLocalResults. rewrite Hres.
    cbn [Js.nullish map_completion]. unfold formatPoi at 1. rewrite Hnone. reflexivity.
Qed.

Lemma formatLocalResults_blocks_witness :
  formatLocalResults (mkBravePoiResponse (Some [sample_poi; poi_named_toString]))
    (mkBraveDescription (Some {["loc1" := "Good coffee"; "toString" := ""]}))
  = Normal ("Name: Cafe" ++ LF
            ++ "Address: 1 Main St" ++ LF
            ++ "Phone: N/A" ++ LF
            ++ "Rating: 4 (0 reviews)" ++ LF
            ++ "Price Range: N/A" ++ LF
            ++ "Hours: N/A" ++ LF
            ++ "Description: Good coffee" ++ LF
            ++ LF ++ "---" ++ LF
            ++ "Name: Cafe" ++ LF
            ++ "Address: N/A" ++ LF
            ++ "Phone: N/A" ++ LF
            ++ "Rating: N/A (0 reviews)" ++ LF
            ++ "Price Range: N/A" ++ LF
            ++ "Hours: N/A" ++ LF
            ++ "Description: No description available" ++ LF).
Proof.
  destruct (formatLocalResults_blocks
              (mkBravePoiResponse (Some [sample_poi; poi_named_toString]))
              (mkBraveDescription (Some {["loc1" := "Good coffee"; "toString" := ""]})))
    as (_ & Hblocks & _).
  destruct (Hblocks {["loc1" := "Good coffee"; "toString" := ""]}
              sample_poi [poi_named_toString]) as [Htext _];
    [reflexivity | reflexivity |].
  rewrite Htext. reflexivity.
Defined.

(** ** Local search *)

(** [performLocalSearch] once its rate check has passed: the locations
    request goes out, and its answer decides between an error, the fallback
    and the two POI fetches. *)
Lemma performLocalSearch_admitted_run query count w :
  fst (rate_check w) = Normal tt ->
  let req := locations_request query (Js.nullish count 5) (apiKey w) in
  let w2 := after_send req (after_check (snd (rate_check w)) w) in
  performLocalSearch query count w
  = match webApi w (length (sent w)) req with
    | Normal webResponse =>
        if Response.ok webResponse
        then match Response.json webResponse with
             | Normal webData =>
                 if Nat.eqb (length (locationIds_of webData)) 0
                 then performWebSearch query (Some (Js.nullish count 5)) None w2
                 else bind (Promise_all2 (getPoisData (locationIds_of webData))
                              (getDescriptionsData (locationIds_of webData)))
                        (fun both => sync (formatLocalResults (fst both) (snd both))) w2
             | Throw e => (Throw e, w2)
             end
        else (Throw (api_error webResponse), w2)
    | Throw e => (Throw e, w2)
    end.
Proof.
  intros Hpass req w2. unfold performLocalSearch. cbv zeta.
  rewrite (bind_Normal _ _ _ _ _ (checkRateLimit_Normal w Hpass)).
  unfold bind, fetch, await, throw.
  cbn [after_check apiKey webApi sent].
  fold req. subst w2. unfold after_send.
  cbn [after_check apiKey webApi sent requestCount clock ticks poisApi
       descriptionsApi poisSettlesFirst].
  destruct (webApi w (length (sent w)) req) as [webResponse | e]; [| reflexivity].
  destruct (Response.ok webResponse); cbn [negb]; [| reflexivity].
  destruct (Response.json webResponse) as [webData | e]; [| reflexivity].
  destruct (Nat.eqb (length (locationIds_of webData)) 0); reflexivity.
Qed.

Lemma performLocalSearch_throttled query count w e :
  fst (rate_check w) = Throw e ->
  performLocalSearch query count w = (Throw e, after_check (snd (rate_check w)) w).
Proof.
  intros He. unfold performLocalSearch. cbv zeta.
  apply bind_Throw, checkRateLimit_Throw, He.
Qed.

(** Both POI fetches throttled: [Promise.all] rejects with the error of the
    first, and nothing is sent. *)
Lemma Promise_all2_throttled ids w e1 e2 :
  fst (rate_check w) = Throw e1 ->
  fst (rate_check (after_check (snd (rate_check w)) w)) = Throw e2 ->
  exists w',
    Promise_all2 (getPoisData ids) (getDescriptionsData ids) w = (Throw e1, w')
    /\ sent w' = sent w.
Proof.
  intros H1 H2. unfold Promise_all2.
  rewrite (getPoisData_throttled ids w e1 H1).
  rewrite (getDescriptionsData_throttled ids _ e2 H2).
  simpl. rewrite Nat.eqb_refl. simpl. eauto.
Qed.

(** A rate check never completes with anything but 'Rate limit exceeded'
    when it throws. *)
Lemma rate_check_completion w :
  fst (rate_check w) = Normal tt \/ fst (rate_check w) = Throw "Rate limit exceeded".
Proof.
  unfold rate_check.
  destruct (checkRateLimit_at_cases (clock w (ticks w)) (requestCount w))
    as [[-> _] | [-> _]]; [right | left]; reflexivity.
Qed.

(** A rate check in a world whose counters are full and whose next clock
    reading falls in the current window. *)
Lemma rate_check_same_window w :
  1 <= second (requestCount w) \/ 15000 <= month (requestCount w) ->
  clock w (ticks w) - lastReset (requestCount w) <= 1000 ->
  rate_check w = (Throw "Rate limit exceeded", requestCount w).
Proof. intros Hfull Hwin. apply checkRateLimit_at_same_window; assumption. Qed.

(** C1.  Take a local search whose clock readings after the first (there
    are at most two more, one per further rate check) fall in the window
    that holds after its first rate check (no more than 1000 ms after the
    last reset).  If the first rate check passes and the
    locations request is answered with a successful, parsed body, then
    the first check has put the per-second counter at its limit and,
    whether the body holds location identifiers (the POI path) or none
    (the fallback), the search throws 'Rate limit exceeded' and the
    locations request is the only one sent.  In any case such a search
    does not return a text. *)
Theorem performLocalSearch_same_window query count w :
  0 <= second (requestCount w) ->
  (forall n, (ticks w < n <= ticks w + 2)%nat ->
     clock w n - lastReset (snd (rate_check w)) <= 1000) ->
  (forall webResponse webData,
     fst (rate_check w) = Normal tt ->
     webApi w (length (sent w))
       (locations_request query (Js.nullish count 5) (apiKey w)) = Normal webResponse ->
     Response.ok webResponse = true ->
     Response.json webResponse = Normal webData ->
     second (snd (rate_check w)) = RATE_LIMIT.perSecond
     /\ fst (performLocalSearch query count w) = Throw "Rate limit exceeded"
     /\ sent (snd (performLocalSearch query count w))
        = (sent w ++ [locations_request query (Js.nullish count 5) (apiKey w)])%list)
  /\ (forall results, fst (performLocalSearch query count w) <> Normal results).
Proof.
  intros Hs Hwin.
  set (rc1 := snd (rate_check w)) in *.
  set (req := locations_request query (Js.nullish count 5) (apiKey w)).
  set (w2 := after_send req (after_check rc1 w)).
  assert (Hfull : 1 <= second rc1 \/ 15000 <= month rc1)
    by (apply checkRateLimit_at_leaves_full; exact Hs).
  assert (Hcheck2 : rate_check w2 = (Throw "Rate limit exceeded", rc1)).
  { apply (rate_check_same_window w2); [exact Hfull |].
    apply (Hwin (S (ticks w))). lia. }
  assert (Hcheck3 :
    rate_check (after_check rc1 w2) = (Throw "Rate limit exceeded", rc1)).
  { apply (rate_check_same_window (after_check rc1 w2)); [exact Hfull |].
    apply (Hwin (S (S (ticks w)))). lia. }
  assert (Hmain : forall webResponse webData,
    fst (rate_check w) = Normal tt ->
    webApi w (length (sent w)) req = Normal webResponse ->
    Response.ok webResponse = true ->
    Response.json webResponse = Normal webData ->
    fst (performLocalSearch query count w) = Throw "Rate limit exceeded"
    /\ sent (snd (performLocalSearch query count w)) = (sent w ++ [req])%list).
  { intros webResponse webData Hpass Hanswer Hok Hjson.
    rewrite (performLocalSearch_admitted_run query count w Hpass). cbv zeta.
    fold rc1 req w2. rewrite Hanswer, Hok, Hjson.
    destruct (Nat.eqb (length (locationIds_of webData)) 0).
    - rewrite (performWebSearch_throttled query _ None w2 "Rate limit exceeded")
        by (rewrite Hcheck2; reflexivity).
      split; reflexivity.
    - destruct (Promise_all2_throttled (locationIds_of webData) w2
                  "Rate limit exceeded" "Rate limit exceeded")
        as (w' & Hall & Hsent).
      + rewrite Hcheck2. reflexivity.
      + rewrite Hcheck2. simpl snd. rewrite Hcheck3. reflexivity.
      + rewrite (bind_Throw _ _ _ _ _ Hall). split; [reflexivity | exact Hsent]. }
  split.
  { intros webResponse webData Hpass Hanswer Hok Hjson.
    split; [| exact (Hmain webResponse webData Hpass Hanswer Hok Hjson)].
    exact (proj1 (checkRateLimit_at_pass _ _ Hs Hpass)). }
  intros results Hreturned.
  destruct (rate_check_completion w) as [Hpass | Hthrow].
  - pose proof (performLocalSearch_admitted_run query count w Hpass) as Hrun.
    cbv zeta in Hrun. fold rc1 req w2 in Hrun.
    destruct (webApi w (length (sent w)) req) as [webResponse | e] eqn:Hanswer;
      [| rewrite Hrun in Hreturned; discriminate].
    destruct (Response.ok webResponse) eqn:Hok;
      [| rewrite Hrun in Hreturned; discriminate].
    destruct (Response.json webResponse) as [webData | e] eqn:Hjson;
      [| rewrite Hrun in Hreturned; discriminate].
    destruct (Hmain webResponse webData Hpass eq_refl Hok Hjson) as [Hthrown _].
    rewrite Hthrown in Hreturned. discriminate.
  - rewrite (performLocalSearch_throttled query count w _ Hthrow) in Hreturned.
    discriminate.
Qed.

Lemma performLocalSearch_same_window_witness :
  fst (performLocalSearch "pizza" (Some 3)
         (sample_world fast_clock (fun _ => one_location)))
  = Throw "Rate limit exceeded"
  /\ length (sent (snd (performLocalSearch "pizza" (Some 3)
                          (sample_world fast_clock (fun _ => one_location)))))
     = 1%nat.
Proof.
  destruct (performLocalSearch_same_window "pizza" (Some 3)
              (sample_world fast_clock (fun _ => one_location)))
    as [Hmain _].
  - simpl. lia.
  - intros n Hn. unfold fast_clock. simpl in *. lia.
  - destruct (Hmain (Response.mk true 200 "OK" "" (Normal one_location)) one_location)
      as (_ & Hthrown & Hsent); try reflexivity.
    split; [exact Hthrown | rewrite Hsent; reflexivity].
Defined.

(** C3.  When the first rate check passes and the locations request is
    answered with a successful, parsed body that holds no location
    identifier, the local search is, from there on, the web search called
    with the same query and count (and no offset): same completion, same
    text, same effects; and the envelope of the [brave_local_search] tool
    is the one the [brave_web_search] tool gives at that point for the
    same arguments. *)
Theorem performLocalSearch_fallback query (count : option Z) w webResponse webData :
  fst (rate_check w) = Normal tt ->
  webApi w (length (sent w))
    (locations_request query (Js.nullish count 5) (apiKey w)) = Normal webResponse ->
  Response.ok webResponse = true ->
  Response.json webResponse = Normal webData ->
  locationIds_of webData = [] ->
  let w2 := after_send (locations_request query (Js.nullish count 5) (apiKey w))
              (after_check (snd (rate_check w)) w) in
  performLocalSearch query count w
  = performWebSearch query (Some (Js.nullish count 5)) None w2
  /\ (forall c, count = Some c ->
      callTool (mkCallToolRequest "brave_local_search"
                  (Some (mkArguments (Some (Js.Str query)) (Some c)))) w
      = callTool (mkCallToolRequest "brave_web_search"
                    (Some (mkArguments (Some (Js.Str query)) (Some c)))) w2).
Proof.
  intros Hpass Hanswer Hok Hjson Hids w2.
  assert (Hrun : performLocalSearch query count w
                 = performWebSearch query (Some (Js.nullish count 5)) None w2).
  { rewrite (performLocalSearch_admitted_run query count w Hpass). cbv zeta.
    rewrite Hanswer, Hok, Hjson, Hids. reflexivity. }
  split; [exact Hrun |].
  intros c ->. unfold callTool, try_catch, bind.
  cbn -[performWebSearch performLocalSearch].
  cbn [Js.nullish] in Hrun. rewrite Hrun. reflexivity.
Qed.

Lemma performLocalSearch_fallback_witness :
  performLocalSearch "test" (Some 3) (sample_world slow_clock fallback_bodies)
  = performWebSearch "test" (Some 3) None
      (after_send
         (locations_request "test" 3 (apiKey (sample_world slow_clock fallback_bodies)))
         (after_check (snd (rate_check (sample_world slow_clock fallback_bodies)))
            (sample_world slow_clock fallback_bodies)))
  /\ fst (performLocalSearch "test" (Some 3) (sample_world slow_clock fallback_bodies))
     = Normal ("Title: T" ++ LF ++ "Description: D" ++ LF ++ "URL: U").
Proof.
  split; [| reflexivity].
  eapply (performLocalSearch_fallback "test" (Some 3)
            (sample_world slow_clock fallback_bodies)
            (Response.mk true 200 "OK" "" (Normal (fallback_bodies 0)))
            (fallback_bodies 0));
    reflexivity.
Defined.

(** ** Tool dispatch *)

Lemma isBraveWebSearchArgs_string args :
  isBraveWebSearchArgs args = true <-> exists s, query args = Some (Js.Str s).
Proof.
  unfold isBraveWebSearchArgs. split.
  - destruct (query args) as [[| | b | n | s | elems | props] |]; simpl;
      try discriminate. intros _. eauto.
  - intros [s ->]. reflexivity.
Qed.

Lemma isBraveLocalSearchArgs_string args :
  isBraveLocalSearchArgs args = true <-> exists s, query args = Some (Js.Str s).
Proof. exact (isBraveWebSearchArgs_string args). Qed.

(** The handler on a well-formed call: the search runs, and its completion
    is wrapped. *)
Lemma callTool_well_formed request args w :
  well_formed_call request args ->
  callTool request w
  = match search_of request args w with
    | (Normal results, w') => (Normal (success results), w')
    | (Throw message, w') => (Normal (failure ("Error: " ++ message)), w')
    end.
Proof.
  intros [Hargs [[Hname Hvalid] | [Hname Hvalid]]];
    unfold callTool, search_of, try_catch, bind; rewrite Hargs, Hname, Hvalid;
    cbn -[performWebSearch performLocalSearch].
  - destruct (performWebSearch _ _ _ w) as [[results | message] w']; reflexivity.
  - destruct (performLocalSearch _ _ w) as [[results | message] w']; reflexivity.
Qed.

(** C7.  The handler always completes normally, with an envelope that
    holds one text and the flag [isError].  Without an arguments object
    the envelope is the failure (isError true) with the text 'Error: No
    arguments provided'; with a query that is missing or not a string, the
    failure 'Error: Invalid arguments for <tool>' of the tool named; on a
    well-formed call, a search that throws gives the failure whose text is
    'Error: ' followed by the message thrown, in particular 'Error: Rate
    limit exceeded' when the first rate check does not pass and 'Error:
    Brave API error: <status> <statusText>\n<body>' when the web search
    request is answered with a response that is not ok, and a search that
    returns a text gives the success envelope (isError false) around this
    text. *)
Theorem callTool_envelope request w :
  (exists message flag,
     fst (callTool request w)
     = Normal (mkCallToolResult [mkTextContent "text" message] flag))
  /\ (arguments request = None ->
      fst (callTool request w)
      = Normal (mkCallToolResult
                  [mkTextContent "text" "Error: No arguments provided"] true))
  /\ (forall args,
        arguments request = Some args ->
        (forall s, query args <> Some (Js.Str s)) ->
        (tool_name request = "brave_web_search" ->
         fst (callTool request w)
         = Normal (mkCallToolResult
                     [mkTextContent "text"
                        "Error: Invalid arguments for brave_web_search"] true))
        /\ (tool_name request = "brave_local_search" ->
            fst (callTool request w)
            = Normal (mkCallToolResult
                        [mkTextContent "text"
                           "Error: Invalid arguments for brave_local_search"] true)))
  /\ (forall args,
        well_formed_call request args ->
        (forall message,
           fst (search_of request args w) = Throw message ->
           fst (callTool request w)
           = Normal (mkCallToolResult
                       [mkTextContent "text" ("Error: " ++ message)] true))
        /\ (forall results,
              fst (search_of request args w) = Normal results ->
              fst (callTool request w)
              = Normal (mkCallToolResult [mkTextContent "text" results] false))
        /\ (fst (rate_check w) <> Normal tt ->
            fst (callTool request w)
            = Normal (mkCallToolResult
                        [mkTextContent "text" "Error: Rate limit exceeded"] true))
        /\ (forall response,
              tool_name request = "brave_web_search" ->
              fst (rate_check w) = Normal tt ->
              webApi w (length (sent w))
                (web_search_request (query_string args) (Js.nullish (count args) 10) 0
                   (apiKey w)) = Normal response ->
              Response.ok response = false ->
              fst (callTool request w)
              = Normal (mkCallToolResult
                          [mkTextContent "text"
                             ("Error: Brave API error: "
                              ++ Js.toString (Response.status response) ++ " "
                              ++ Response.statusText response ++ LF
                              ++ Response.text response)] true))).
Proof.
  split; [| split; [| split]].
  - unfold callTool, try_catch.
    destruct (arguments request) as [args |]; [| simpl; eauto].
    destruct (String.eqb (tool_name request) "brave_web_search").
    { destruct (negb (isBraveWebSearchArgs args)); [simpl; eauto |].
      unfold bind.
      destruct (performWebSearch _ _ _ w) as [[results | e] w']; simpl; eauto. }
    destruct (String.eqb (tool_name request) "brave_local_search"); [| simpl; eauto].
    destruct (negb (isBraveLocalSearchArgs args)); [simpl; eauto |].
    unfold bind.
    destruct (performLocalSearch _ _ w) as [[results | e] w']; simpl; eauto.
  - intros Hnone. unfold callTool, try_catch. rewrite Hnone. reflexivity.
  - intros args Hargs Hquery.
    assert (Hinvalid : isBraveWebSearchArgs args = false).
    { destruct (isBraveWebSearchArgs args) eqn:Hvalid; [| reflexivity].
      apply isBraveWebSearchArgs_string in Hvalid as [s Hs].
      exfalso. exact (Hquery s Hs). }
    split; intros Hname; unfold callTool, try_catch; rewrite Hargs, Hname;
      cbn -[performWebSearch performLocalSearch isBraveWebSearchArgs
            isBraveLocalSearchArgs];
      [| change (isBraveLocalSearchArgs args) with (isBraveWebSearchArgs args)];
      rewrite Hinvalid; reflexivity.
  - intros args Hwf.
    pose proof (callTool_well_formed request args w Hwf) as Hrun.
    split; [| split; [| split]].
    + intros message Hthrow. rewrite Hrun.
      destruct (search_of request args w) as [[results | e] w']; simpl in *;
        [discriminate | injection Hthrow as ->; reflexivity].
    + intros results Hreturn. rewrite Hrun.
      destruct (search_of request args w) as [[r | e] w']; simpl in *;
        [injection Hreturn as ->; reflexivity | discriminate].
    + intros Hfail.
      destruct (rate_check_completion w) as [Hpass | Hthrow]; [contradiction |].
      rewrite Hrun. unfold search_of.
      destruct (String.eqb (tool_name request) "brave_web_search").
      * rewrite (performWebSearch_throttled _ _ _ w _ Hthrow). reflexivity.
      * rewrite (performLocalSearch_throttled _ _ w _ Hthrow). reflexivity.
    + intros response Hname Hpass Hanswer Hok.
      rewrite Hrun. unfold search_of. rewrite Hname.
      cbn -[performWebSearch].
      rewrite (performWebSearch_admitted_run _ _ _ w Hpass). cbv zeta.
      cbn [Js.nullish]. rewrite Hanswer, Hok. reflexivity.
Qed.

Lemma callTool_envelope_witness :
  fst (callTool sample_call (sample_world fast_clock (fun _ => one_web_result)))
  = Normal (mkCallToolResult
              [mkTextContent "text"
                 ("Title: T" ++ LF ++ "Description: D" ++ LF ++ "URL: U")] false)
  /\ fst (callTool sample_call
            (snd (callTool sample_call
                    (sample_world fast_clock (fun _ => one_web_result)))))
     = Normal (mkCallToolResult
                 [mkTextContent "text" "Error: Rate limit exceeded"] true)
  /\ fst (callTool (mkCallToolRequest "brave_web_search" None)
            (sample_world fast_clock (fun _ => one_web_result)))
     = Normal (mkCallToolResult
                 [mkTextContent "text" "Error: No arguments provided"] true)
  /\ fst (callTool (mkCallToolRequest "brave_local_search"
                      (Some (mkArguments (Some (Js.Num 7)) None)))
            (sample_world fast_clock (fun _ => one_web_result)))
     = Normal (mkCallToolResult
                 [mkTextContent "text"
                    "Error: Invalid arguments for brave_local_search"] true).
Proof.
  set (request := sample_call).
  set (w := sample_world fast_clock (fun _ => one_web_result)).
  assert (Hwf : well_formed_call request
                  (mkArguments (Some (Js.Str "test")) (Some 25))).
  { split; [reflexivity | left; split; reflexivity]. }
  split; [| split; [| split]].
  - destruct (callTool_envelope request w) as (_ & _ & _ & Hcall).
    destruct (Hcall _ Hwf) as (_ & Hreturn & _ & _).
    apply Hreturn. reflexivity.
  - destruct (callTool_envelope request (snd (callTool request w)))
      as (_ & _ & _ & Hcall).
    destruct (Hcall _ Hwf) as (_ & _ & Hrate & _).
    apply Hrate. vm_compute. discriminate.
  - destruct (callTool_envelope (mkCallToolRequest "brave_web_search" None) w)
      as (_ & Hnone & _).
    apply Hnone. reflexivity.
  - destruct (callTool_envelope
                (mkCallToolRequest "brave_local_search"
                   (Some (mkArguments (Some (Js.Num 7)) None))) w)
      as (_ & _ & Hinvalid & _).
    destruct (Hinvalid (mkArguments (Some (Js.Num 7)) None)) as [_ Hlocal];
      [reflexivity | intros s; discriminate |].
    apply Hlocal. reflexivity.
Defined.

(** C8.  A call that supplies arguments and names a tool other than
    [brave_web_search] and [brave_local_search] completes normally with
    the failure envelope whose text is 'Unknown tool: ' followed by the
    name; nothing is thrown, no rate check is made and no request is sent:
    the world is left as it was. *)
Theorem callTool_unknown_tool request args w :
  arguments request = Some args ->
  tool_name request <> "brave_web_search" ->
  tool_name request <> "brave_local_search" ->
  callTool request w
  = (Normal (mkCallToolResult
               [mkTextContent "text" ("Unknown tool: " ++ tool_name request)] true),
     w).
Proof.
  intros Hargs Hweb Hlocal. unfold callTool, try_catch. rewrite Hargs.
  apply String.eqb_neq in Hweb, Hlocal. rewrite Hweb, Hlocal. reflexivity.
Qed.

Lemma callTool_unknown_tool_witness :
  callTool (mkCallToolRequest "brave_image_search"
              (Some (mkArguments (Some (Js.Str "cats")) None)))
    (sample_world slow_clock (fun _ => one_web_result))
  = (Normal (mkCallToolResult
               [mkTextContent "text" "Unknown tool: brave_image_search"] true),
     sample_world slow_clock (fun _ => one_web_result)).
Proof.
  apply (callTool_unknown_tool
           (mkCallToolRequest "brave_image_search"
              (Some (mkArguments (Some (Js.Str "cats")) None)))
           (mkArguments (Some (Js.Str "cats")) None));
    [reflexivity | discriminate | discriminate].
Defined.

(** ** The counters across the operations *)

(** Every operation touches the counters through [checkRateLimit] only:
    a relation on counters that is reflexive, transitive and respected by
    one rate check is respected by every function of the program. *)
Section CountersAlong.

Variable R : RequestCount -> RequestCount -> Prop.
Hypothesis R_refl : forall rc, R rc rc.
Hypothesis R_trans : forall rc1 rc2 rc3, R rc1 rc2 -> R rc2 rc3 -> R rc1 rc3.
Hypothesis R_check : forall now rc, R rc (snd (checkRateLimit_at now rc)).

Lemma along_ret {A} (a : A) : counters_along R (ret a).
Proof using R_refl. intros w. apply R_refl. Qed.

Lemma along_throw {A} message : counters_along R (@throw A message).
Proof using R_refl. intros w. apply R_refl. Qed.

Lemma along_await {A} (c : Completion A) : counters_along R (await c).
Proof using R_refl. intros w. apply R_refl. Qed.

Lemma along_sync {A} (c : Completion A) : counters_along R (sync c).
Proof using R_refl. intros w. apply R_refl. Qed.

Lemma along_read {A} (f : World -> A) : counters_along R (fun w => (Normal (f w), w)).
Proof using R_refl. intros w. apply R_refl. Qed.

Lemma along_fetch {A} (api : World -> nat -> Request -> Completion (Response.t A)) req :
  counters_along R (fetch api req).
Proof using R_refl. intros w. apply R_refl. Qed.

Lemma along_checkRateLimit : counters_along R checkRateLimit.
Proof using R_check.
  intros w. rewrite checkRateLimit_run. apply R_check.
Qed.

Lemma along_bind {A B} (m : M A) (k : A -> M B) :
  counters_along R m -> (forall a, counters_along R (k a)) ->
  counters_along R (bind m k).
Proof using R_trans.
  intros Hm Hk w. unfold bind. specialize (Hm w).
  destruct (m w) as [[a | e] w']; simpl in Hm; [| exact Hm].
  eapply R_trans; [exact Hm | apply Hk].
Qed.

Lemma along_try_catch {A} (body : M A) (handler : string -> M A) :
  counters_along R body -> (forall e, counters_along R (handler e)) ->
  counters_along R (try_catch body handler).
Proof using R_trans.
  intros Hbody Hhandler w. unfold try_catch. specialize (Hbody w).
  destruct (body w) as [[a | e] w']; simpl in Hbody; [exact Hbody |].
  eapply R_trans; [exact Hbody | apply Hhandler].
Qed.

Lemma along_Promise_all2 {A B} (p : M A) (q : M B) :
  counters_along R p -> counters_along R q ->
  counters_along R (Promise_all2 p q).
Proof using R_trans.
  intros Hp Hq w. unfold Promise_all2.
  specialize (Hp w). destruct (p w) as [cp w1]. simpl in Hp.
  specialize (Hq w1). destruct (q w1) as [cq w2]. simpl in Hq.
  assert (Hgoal : R (requestCount w) (requestCount w2))
    by (eapply R_trans; eassumption).
  destruct cp, cq; exact Hgoal.
Qed.

Lemma along_if {A} (b : bool) (m1 m2 : M A) :
  counters_along R m1 -> counters_along R m2 ->
  counters_along R (if b then m1 else m2).
Proof using Type. destruct b; intros; assumption. Qed.

Ltac along :=
  repeat first
    [ simple apply along_checkRateLimit
    | simple apply along_fetch
    | simple apply along_ret
    | simple apply along_throw
    | simple apply along_await
    | simple apply along_sync
    | simple apply along_read
    | simple apply along_if
    | simple apply along_bind; [| intros ?] ].

Lemma along_performWebSearch query count offset :
  counters_along R (performWebSearch query count offset).
Proof using R_refl R_trans R_check. unfold performWebSearch. cbv zeta. along. Qed.

Lemma along_getPoisData ids : counters_along R (getPoisData ids).
Proof using R_refl R_trans R_check. unfold getPoisData. along. Qed.

Lemma along_getDescriptionsData ids : counters_along R (getDescriptionsData ids).
Proof using R_refl R_trans R_check. unfold getDescriptionsData. along. Qed.

Lemma along_performLocalSearch query count :
  counters_along R (performLocalSearch query count).
Proof using R_refl R_trans R_check.
  unfold performLocalSearch. cbv zeta. along.
  - apply along_performWebSearch.
  - apply along_Promise_all2; [apply along_getPoisData | apply along_getDescriptionsData].
Qed.

Lemma along_callTool request : counters_along R (callTool request).
Proof using R_refl R_trans R_check.
  unfold callTool. apply along_try_catch; [| intros e; apply along_ret].
  destruct (arguments request) as [args |]; [| apply along_throw].
  along; first [apply along_performWebSearch | apply along_performLocalSearch].
Qed.

End CountersAlong.

(** The counters stay within their limits across a call of a tool. *)
Lemma counters_ok_callTool request w :
  counters_ok (requestCount w) ->
  counters_ok (requestCount (snd (callTool request w))).
Proof.
  apply (along_callTool (fun rc rc' => counters_ok rc -> counters_ok rc')).
  - auto.
  - auto.
  - intros now rc. apply counters_ok_checkRateLimit_at.
Qed.

(** A well-formed call that finds the monthly counter at its limit. *)
Lemma callTool_exhausted request args w :
  well_formed_call request args ->
  15000 <= month (requestCount w) ->
  fst (callTool request w) = Normal (failure "Error: Rate limit exceeded")
  /\ month (requestCount (snd (callTool request w))) = month (requestCount w).
Proof.
  intros Hwf Hm.
  destruct (exhausted_checkRateLimit_at (clock w (ticks w)) (requestCount w) Hm)
    as [Hthrow Hmonth].
  fold (rate_check w) in Hthrow, Hmonth.
  rewrite (callTool_well_formed request args w Hwf). unfold search_of.
  destruct (String.eqb (tool_name request) "brave_web_search").
  - rewrite (performWebSearch_throttled _ _ _ w _ Hthrow). split; [reflexivity | exact Hmonth].
  - rewrite (performLocalSearch_throttled _ _ w _ Hthrow). split; [reflexivity | exact Hmonth].
Qed.

(** C9.  The per-month counter starts at zero and never goes down: not
    over a succession of calls of [checkRateLimit], and not across a call
    of a tool, whatever the request and the upstream do.  Once it has
    reached 15000 every call of [checkRateLimit] throws 'Rate limit
    exceeded' and leaves it there, and every well-formed call of a tool
    is answered with the failure 'Error: Rate limit exceeded'. *)
Theorem month_never_resets :
  (forall now, month (initial_requestCount now) = 0)
  /\ (forall nows rc, month rc <= month (snd (checkRateLimit_calls nows rc)))
  /\ (forall request w,
        month (requestCount w) <= month (requestCount (snd (callTool request w))))
  /\ (forall nows rc,
        15000 <= month rc ->
        Forall (fun c => c = Throw "Rate limit exceeded")
          (fst (checkRateLimit_calls nows rc))
        /\ month (snd (checkRateLimit_calls nows rc)) = month rc)
  /\ (forall request args w,
        well_formed_call request args ->
        15000 <= month (requestCount w) ->
        fst (callTool request w) = Normal (failure "Error: Rate limit exceeded")
        /\ month (requestCount (snd (callTool request w))) = month (requestCount w)).
Proof.
  split; [reflexivity |].
  split; [intros nows rc; apply month_checkRateLimit_calls |].
  split.
  { intros request.
    apply (along_callTool (fun rc rc' => month rc <= month rc')).
    - intros rc. lia.
    - intros rc1 rc2 rc3. lia.
    - apply month_checkRateLimit_at. }
  split; [intros nows rc; apply month_checkRateLimit_calls |].
  apply callTool_exhausted.
Qed.

Lemma month_never_resets_witness :
  Forall (fun c => c = Throw "Rate limit exceeded")
    (fst (checkRateLimit_calls [0; 5000; 90000] (mkRequestCount 0 15000 0)))
  /\ month (snd (checkRateLimit_calls [0; 5000; 90000] (mkRequestCount 0 15000 0)))
     = month (mkRequestCount 0 15000 0).
Proof.
  destruct month_never_resets as (_ & _ & _ & Hcalls & _).
  apply (Hcalls [0; 5000; 90000] (mkRequestCount 0 15000 0)).
  simpl. lia.
Defined.

(** * Further properties *)

(** ** What a call does to the world *)

Section WorldAlong.

Variable R : World -> World -> Prop.
Hypothesis R_refl : forall w, R w w.
Hypothesis R_trans : forall w1 w2 w3, R w1 w2 -> R w2 w3 -> R w1 w3.

Lemma world_ret {A} (a : A) : world_along R (ret a).
Proof using R_refl. intros w. apply R_refl. Qed.

Lemma world_throw {A} message : world_along R (@throw A message).
Proof using R_refl. intros w. apply R_refl. Qed.

Lemma world_await {A} (c : Completion A) : world_along R (await c).
Proof using R_refl. intros w. apply R_refl. Qed.

Lemma world_sync {A} (c : Completion A) : world_along R (sync c).
Proof using R_refl. intros w. apply R_refl. Qed.

Lemma world_bind {A B} (m : M A) (k : A -> M B) :
  world_along R m -> (forall a, world_along R (k a)) -> world_along R (bind m k).
Proof using R_trans.
  intros Hm Hk w. unfold bind. specialize (Hm w).
  destruct (m w) as [[a | e] w']; simpl in Hm; [| exact Hm].
  eapply R_trans; [exact Hm | apply Hk].
Qed.

Lemma world_try_catch {A} (body : M A) (handler : string -> M A) :
  world_along R body -> (forall e, world_along R (handler e)) ->
  world_along R (try_catch body handler).
Proof using R_trans.
  intros Hbody Hhandler w. unfold try_catch. specialize (Hbody w).
  destruct (body w) as [[a | e] w']; simpl in Hbody; [exact Hbody |].
  eapply R_trans; [exact Hbody | apply Hhandler].
Qed.

Lemma world_Promise_all2 {A B} (p : M A) (q : M B) :
  world_along R p -> world_along R q -> world_along R (Promise_all2 p q).
Proof using R_trans.
  intros Hp Hq w. unfold Promise_all2.
  specialize (Hp w). destruct (p w) as [cp w1]. simpl in Hp.
  specialize (Hq w1). destruct (q w1) as [cq w2]. simpl in Hq.
  assert (Hgoal : R w w2) by (eapply R_trans; eassumption).
  destruct cp, cq; exact Hgoal.
Qed.

Lemma world_if {A} (b : bool) (m1 m2 : M A) :
  world_along R m1 -> world_along R m2 -> world_along R (if b then m1 else m2).
Proof using Type. destruct b; intros; assumption. Qed.

(** The shape the four upstream calls share: rate check, then the request
    built with the key, then a continuation on the response. *)
Lemma world_check_fetch {A B}
    (api : World -> nat -> Request -> Completion (Response.t A))
    (request_with : string -> Request) (k : Response.t A -> M B) :
  (forall w, fst (rate_check w) <> Normal tt ->
     R w (after_check (snd (rate_check w)) w)) ->
  (forall w, fst (rate_check w) = Normal tt ->
     R w (after_send (request_with (apiKey w)) (after_check (snd (rate_check w)) w))) ->
  (forall response, world_along R (k response)) ->
  world_along R
    (checkRateLimit ;;;
     key <- (fun w => (Normal (apiKey w), w)) ;;
     response <- fetch api (request_with key) ;;
     k response).
Proof using R_trans.
  intros Hthrottled Hsent Hk w.
  destruct (rate_check_completion w) as [Hpass | Hthrow].
  - rewrite (bind_Normal _ _ _ _ _ (checkRateLimit_Normal w Hpass)).
    unfold bind at 1. cbn beta iota. unfold bind at 1, fetch at 1.
    change (apiKey (after_check (snd (rate_check w)) w)) with (apiKey w).
    set (w2 := after_send (request_with (apiKey w)) (after_check (snd (rate_check w)) w)).
    specialize (Hsent w Hpass). fold w2 in Hsent.
    match goal with
    | |- R w (snd (match ?c with Normal a => _ | Throw e => _ end)) =>
        destruct c as [response | e]
    end.
    + eapply R_trans; [exact Hsent | apply Hk].
    + exact Hsent.
  - rewrite (bind_Throw _ _ _ _ _ (checkRateLimit_Throw w _ Hthrow)). simpl.
    apply Hthrottled. rewrite Hthrow. discriminate.
Qed.

End WorldAlong.

(** ** Requests and quota *)

Lemma follows_refl w : follows w w.
Proof.
  exists []. rewrite app_nil_r. simpl.
  split; [reflexivity |]. split; [constructor |]. split; [lia | reflexivity].
Qed.

Lemma follows_trans w1 w2 w3 : follows w1 w2 -> follows w2 w3 -> follows w1 w3.
Proof.
  intros (new1 & Hsent1 & Hall1 & Hmonth1 & Hkey1)
         (new2 & Hsent2 & Hall2 & Hmonth2 & Hkey2).
  exists (new1 ++ new2)%list.
  split; [rewrite Hsent2, Hsent1, app_assoc; reflexivity |].
  split; [apply Forall_app_2; [exact Hall1 | rewrite <- Hkey1; exact Hall2] |].
  split; [rewrite length_app, Nat2Z.inj_add; lia | congruence].
Qed.

(** The monthly counter after a rate check: one more when it passes, the
    same when it throws. *)
Lemma month_rate_check w :
  (fst (rate_check w) = Normal tt
   /\ month (snd (rate_check w)) = month (requestCount w) + 1)
  \/ (fst (rate_check w) = Throw "Rate limit exceeded"
      /\ month (snd (rate_check w)) = month (requestCount w)).
Proof.
  unfold rate_check.
  destruct (checkRateLimit_at_cases (clock w (ticks w)) (requestCount w))
    as [[-> _] | [-> _]]; [right | left]; (split; [reflexivity |]); simpl;
    destruct (1000 <? clock w (ticks w) - lastReset (requestCount w)); reflexivity.
Qed.

Lemma follows_throttled w :
  fst (rate_check w) <> Normal tt -> follows w (after_check (snd (rate_check w)) w).
Proof.
  intros Hfail. destruct (month_rate_check w) as [[Hpass _] | [_ Hmonth]];
    [contradiction |].
  exists []. simpl. rewrite app_nil_r.
  split; [reflexivity |]. split; [constructor |]. split; [lia | reflexivity].
Qed.

Lemma follows_sent req w :
  upstream_request (apiKey w) req ->
  fst (rate_check w) = Normal tt ->
  follows w (after_send req (after_check (snd (rate_check w)) w)).
Proof.
  intros Hreq Hpass. destruct (month_rate_check w) as [[_ Hmonth] | [Hthrow _]];
    [| rewrite Hpass in Hthrow; discriminate].
  exists [req]. simpl.
  split; [reflexivity |]. split; [constructor; [exact Hreq | constructor] |].
  split; [lia | reflexivity].
Qed.

Ltac follows_pure :=
  repeat first
    [ simple apply world_ret; exact follows_refl
    | simple apply world_throw; exact follows_refl
    | simple apply world_await; exact follows_refl
    | simple apply world_sync; exact follows_refl
    | simple apply world_if
    | simple apply world_bind; [exact follows_trans | | intros ?] ].

Lemma follows_performWebSearch query count offset :
  world_along follows (performWebSearch query count offset).
Proof.
  unfold performWebSearch. cbv zeta.
  apply (world_check_fetch follows follows_trans webApi
           (fun key => web_search_request query (Js.nullish count 10)
                         (Js.nullish offset 0) key)).
  - exact follows_throttled.
  - intros w. apply follows_sent. split; [reflexivity | left; reflexivity].
  - intros response. follows_pure.
Qed.

Lemma follows_getPoisData ids : world_along follows (getPoisData ids).
Proof.
  unfold getPoisData.
  apply (world_check_fetch follows follows_trans poisApi
           (fun key => mkRequest pois_endpoint (append_ids ids []) (fetch_headers key))).
  - exact follows_throttled.
  - intros w. apply follows_sent. split; [reflexivity | right; left; reflexivity].
  - intros response. follows_pure.
Qed.

Lemma follows_getDescriptionsData ids : world_along follows (getDescriptionsData ids).
Proof.
  unfold getDescriptionsData.
  apply (world_check_fetch follows follows_trans descriptionsApi
           (fun key => mkRequest descriptions_endpoint (append_ids ids [])
                         (fetch_headers key))).
  - exact follows_throttled.
  - intros w. apply follows_sent. split; [reflexivity | right; right; reflexivity].
  - intros response. follows_pure.
Qed.

Lemma follows_performLocalSearch query count :
  world_along follows (performLocalSearch query count).
Proof.
  unfold performLocalSearch. cbv zeta.
  apply (world_check_fetch follows follows_trans webApi
           (fun key => locations_request query (Js.nullish count 5) key)).
  - exact follows_throttled.
  - intros w. apply follows_sent. split; [reflexivity | left; reflexivity].
  - intros response. follows_pure.
    + apply follows_performWebSearch.
    + apply world_Promise_all2;
        [exact follows_trans | apply follows_getPoisData | apply follows_getDescriptionsData].
Qed.

Lemma follows_callTool request : world_along follows (callTool request).
Proof.
  unfold callTool.
  apply world_try_catch;
    [exact follows_trans | | intros e; apply world_ret; exact follows_refl].
  destruct (arguments request) as [args |];
    [| apply world_throw; exact follows_refl].
  follows_pure; first [apply follows_performWebSearch | apply follows_performLocalSearch].
Qed.

Lemma follows_callTool_calls requests w :
  follows w (snd (callTool_calls requests w)).
Proof.
  revert w. induction requests as [| request rest IH]; intros w; simpl.
  - apply follows_refl.
  - pose proof (follows_callTool request w) as Hcall.
    destruct (callTool request w) as [c w1]. simpl in Hcall.
    specialize (IH w1). destruct (callTool_calls rest w1) as [cs w2]. simpl in *.
    eapply follows_trans; eassumption.
Qed.

Lemma counters_ok_callTool_calls requests w :
  counters_ok (requestCount w) ->
  counters_ok (requestCount (snd (callTool_calls requests w))).
Proof.
  revert w. induction requests as [| request rest IH]; intros w Hok; simpl;
    [exact Hok |].
  pose proof (counters_ok_callTool request w Hok) as Hcall.
  destruct (callTool request w) as [c w1]. simpl in Hcall.
  specialize (IH w1 Hcall). destruct (callTool_calls rest w1) as [cs w2]. exact IH.
Qed.

(** X1.  Whatever the request and whatever the upstream does, a tool call
    only adds to the log of requests; each request it sends goes to one of
    the three endpoints with the three headers and the key of the process
    as the token; and the monthly counter goes up by exactly the number of
    requests sent, so a request that the upstream fails still counts and a
    throttled call counts nothing. *)
Theorem callTool_requests_counted request w :
  exists new,
    sent (snd (callTool request w)) = (sent w ++ new)%list
    /\ Forall (fun req =>
                 headers req
                 = [("Accept", "application/json"); ("Accept-Encoding", "gzip");
                    ("X-Subscription-Token", apiKey w)]
                 /\ (endpoint req = web_search_endpoint
                     \/ endpoint req = pois_endpoint
                     \/ endpoint req = descriptions_endpoint)) new
    /\ month (requestCount (snd (callTool request w)))
       = month (requestCount w) + Z.of_nat (length new)
    /\ apiKey (snd (callTool request w)) = apiKey w.
Proof. exact (follows_callTool request w). Qed.

(** X2.  In a process that has just started (counters at zero, nothing
    sent), after any succession of tool calls served one after the other
    the monthly counter is the number of requests sent so far, and this
    number is at most 15000: the process never sends more than 15000
    requests upstream. *)
Theorem requests_within_monthly_budget now requests w :
  requestCount w = initial_requestCount now ->
  sent w = [] ->
  Z.of_nat (length (sent (snd (callTool_calls requests w))))
  = month (requestCount (snd (callTool_calls requests w)))
  /\ Z.of_nat (length (sent (snd (callTool_calls requests w)))) <= 15000
  /\ 0 <= second (requestCount (snd (callTool_calls requests w))) <= 1.
Proof.
  intros Hstart Hnone.
  destruct (follows_callTool_calls requests w) as (new & Hsent & _ & Hmonth & _).
  assert (Hok : counters_ok (requestCount (snd (callTool_calls requests w)))).
  { apply counters_ok_callTool_calls. rewrite Hstart. apply counters_ok_initial. }
  destruct Hok as [Hsecond Hbound].
  unfold RATE_LIMIT.perSecond, RATE_LIMIT.perMonth in *.
  rewrite Hstart in Hmonth. simpl in Hmonth.
  rewrite Hnone in Hsent. simpl in Hsent.
  rewrite Hsent. split; [lia |]. split; [lia | exact Hsecond].
Qed.

Lemma requests_within_monthly_budget_witness :
  Z.of_nat (length (sent (snd (callTool_calls [sample_call; sample_call; sample_call]
                                 (sample_world slow_clock (fun _ => one_web_result))))))
  = month (requestCount (snd (callTool_calls [sample_call; sample_call; sample_call]
                                 (sample_world slow_clock (fun _ => one_web_result))))).
Proof.
  apply (requests_within_monthly_budget 0 [sample_call; sample_call; sample_call]
           (sample_world slow_clock (fun _ => one_web_result)));
    reflexivity.
Defined.

(** ** The two POI requests *)

Lemma append_ids_params ids : append_ids ids [] = ids_params ids.
Proof.
  unfold append_ids, ids_params, nonempty_id.
  assert (Hfold : forall (kept : list string) (params : Js.URLSearchParams),
    foldl (fun acc id => Js.append "ids" id acc) params kept
    = (params ++ map (fun id => ("ids", id)) kept)%list).
  { induction kept as [| id kept IH]; intros params; simpl.
    - rewrite app_nil_r. reflexivity.
    - rewrite IH. unfold Js.append. rewrite <- app_assoc. reflexivity. }
  rewrite Hfold. reflexivity.
Qed.

Lemma getPoisData_admitted_run ids w :
  fst (rate_check w) = Normal tt ->
  let req := mkRequest pois_endpoint (ids_params ids) (fetch_headers (apiKey w)) in
  getPoisData ids w
  = (match poisApi w (length (sent w)) req with
     | Normal response =>
         if Response.ok response then Response.json response
         else Throw (api_error response)
     | Throw e => Throw e
     end,
     after_send req (after_check (snd (rate_check w)) w)).
Proof.
  intros Hpass req. unfold getPoisData.
  rewrite (bind_Normal _ _ _ _ _ (checkRateLimit_Normal w Hpass)).
  unfold bind, fetch. simpl. rewrite append_ids_params. fold req.
  destruct (poisApi w (length (sent w)) req) as [response | e]; [| reflexivity].
  destruct (Response.ok response); simpl; [| reflexivity].
  unfold await, ret. destruct (Response.json response); reflexivity.
Qed.

Lemma getDescriptionsData_admitted_run ids w :
  fst (rate_check w) = Normal tt ->
  let req := mkRequest descriptions_endpoint (ids_params ids)
               (fetch_headers (apiKey w)) in
  getDescriptionsData ids w
  = (match descriptionsApi w (length (sent w)) req with
     | Normal response =>
         if Response.ok response then Response.json response
         else Throw (api_error response)
     | Throw e => Throw e
     end,
     after_send req (after_check (snd (rate_check w)) w)).
Proof.
  intros Hpass req. unfold getDescriptionsData.
  rewrite (bind_Normal _ _ _ _ _ (checkRateLimit_Normal w Hpass)).
  unfold bind, fetch. simpl. rewrite append_ids_params. fold req.
  destruct (descriptionsApi w (length (sent w)) req) as [response | e]; [| reflexivity].
  destruct (Response.ok response); simpl; [| reflexivity].
  unfold await, ret. destruct (Response.json response); reflexivity.
Qed.

Lemma getAll_ids_params ids : Js.getAll "ids" (ids_params ids) = filter nonempty_id ids.
Proof.
  unfold ids_params. induction (filter nonempty_id ids) as [| id kept IH];
    [reflexivity |].
  unfold Js.getAll in *. simpl. f_equal. exact IH.
Qed.

(** X3.  When their rate check passes, [getPoisData] and
    [getDescriptionsData] each send one request, to their own endpoint and
    with the same query: one [ids] parameter per identifier that is not the
    empty string, in the order received, repeated identifiers repeated, and
    no other parameter; with only empty identifiers the request still goes
    out, without any parameter. *)
Theorem poi_requests_carry_ids (ids : list string) w :
  fst (rate_check w) = Normal tt ->
  (exists req,
     sent (snd (getPoisData ids w)) = (sent w ++ [req])%list
     /\ endpoint req = pois_endpoint
     /\ searchParams req = map (fun id => ("ids", id)) (filter nonempty_id ids)
     /\ Js.getAll "ids" (searchParams req) = filter nonempty_id ids)
  /\ (exists req,
        sent (snd (getDescriptionsData ids w)) = (sent w ++ [req])%list
        /\ endpoint req = descriptions_endpoint
        /\ searchParams req = map (fun id => ("ids", id)) (filter nonempty_id ids)
        /\ Js.getAll "ids" (searchParams req) = filter nonempty_id ids)
  /\ (Forall (fun id => id = "") ids ->
      filter nonempty_id ids = []).
Proof.
  intros Hpass. split; [| split].
  - rewrite (getPoisData_admitted_run ids w Hpass). cbv zeta.
    eexists. split; [reflexivity |]. split; [reflexivity |].
    split; [reflexivity | apply getAll_ids_params].
  - rewrite (getDescriptionsData_admitted_run ids w Hpass). cbv zeta.
    eexists. split; [reflexivity |]. split; [reflexivity |].
    split; [reflexivity | apply getAll_ids_params].
  - intros Hempty. induction Hempty as [| id rest -> _ IH]; [reflexivity |].
    rewrite filter_cons_False by (unfold nonempty_id; simpl; discriminate).
    exact IH.
Qed.

Lemma poi_requests_carry_ids_witness :
  exists req,
    sent (snd (getPoisData ["a"; ""; "b"; "a"] (local_world slow_clock))) = [req]
    /\ Js.getAll "ids" (searchParams req) = ["a"; "b"; "a"].
Proof.
  destruct (poi_requests_carry_ids ["a"; ""; "b"; "a"] (local_world slow_clock))
    as [(req & Hsent & _ & _ & Hids) _]; [reflexivity |].
  exists req. split; [exact Hsent | exact Hids].
Defined.

(** ** The POI path of a local search *)

(** A rate check that passes although the per-second counter was at its
    limit has reset the window: the clock was more than 1000 ms past the
    last reset, and the window now starts at this reading. *)
Lemma checkRateLimit_at_pass_full now rc :
  1 <= second rc ->
  fst (checkRateLimit_at now rc) = Normal tt ->
  snd (checkRateLimit_at now rc) = mkRequestCount 1 (month rc + 1) now
  /\ 1000 < now - lastReset rc.
Proof.
  intros Hfull Hpass.
  destruct (checkRateLimit_at_cases now rc) as [[Heq _] | [Heq Hlow]];
    rewrite Heq in *; simpl in *; [discriminate |].
  destruct (1000 <? now - lastReset rc) eqn:Hreset; simpl in *; [| lia].
  split; [reflexivity | apply Z.ltb_lt; exact Hreset].
Qed.

Lemma length_snoc_neq {A} (l : list A) (x : A) :
  Nat.eqb (length (l ++ [x])) (length l) = false.
Proof. apply Nat.eqb_neq. rewrite length_app. simpl. lia. Qed.

(** X4.  A local search whose locations request was answered with at least
    one identifier calls [getPoisData] and [getDescriptionsData] back to
    back.  If the clock reading of the second of these rate checks is no
    more than 1000 ms after the reading of the first, the search throws
    'Rate limit exceeded', whatever the upstream answers: either the POI
    check is throttled, or it passes, its request goes out, and the
    descriptions check is throttled. *)
Theorem performLocalSearch_pois_throttled query count w webResponse webData :
  0 <= second (requestCount w) ->
  fst (rate_check w) = Normal tt ->
  webApi w (length (sent w))
    (locations_request query (Js.nullish count 5) (apiKey w)) = Normal webResponse ->
  Response.ok webResponse = true ->
  Response.json webResponse = Normal webData ->
  locationIds_of webData <> [] ->
  clock w (S (S (ticks w))) - clock w (S (ticks w)) <= 1000 ->
  fst (performLocalSearch query count w) = Throw "Rate limit exceeded".
Proof.
  intros Hs Hpass Hanswer Hok Hjson Hids Hwin.
  rewrite (performLocalSearch_admitted_run query count w Hpass). cbv zeta.
  rewrite Hanswer, Hok, Hjson.
  destruct (locationIds_of webData) as [| id ids] eqn:Hlist; [contradiction |].
  simpl length. cbn [Nat.eqb].
  set (rc1 := snd (rate_check w)).
  set (w2 := after_send _ (after_check rc1 w)).
  assert (Hone : second rc1 = 1)
    by exact (proj1 (checkRateLimit_at_pass _ _ Hs Hpass)).
  enough (Hall : exists w',
            Promise_all2 (getPoisData (id :: ids)) (getDescriptionsData (id :: ids)) w2
            = (Throw "Rate limit exceeded", w')).
  { destruct Hall as [w' Hall]. rewrite (bind_Throw _ _ _ _ _ Hall). reflexivity. }
  unfold Promise_all2.
  destruct (rate_check_completion w2) as [Hpass2 | Hthrow2].
  - rewrite (getPoisData_admitted_run (id :: ids) w2 Hpass2). cbv zeta.
    set (cp := match poisApi w2 _ _ with Normal _ => _ | Throw e => _ end).
    set (w3 := after_send _ (after_check (snd (rate_check w2)) w2)).
    destruct (checkRateLimit_at_pass_full (clock w (S (ticks w))) rc1) as [Hrc2 _];
      [lia | exact Hpass2 |].
    assert (Hthrow3 : rate_check w3
                      = (Throw "Rate limit exceeded", snd (rate_check w2))).
    { apply (rate_check_same_window w3).
      - left. change (requestCount w3) with (snd (rate_check w2)).
        unfold rate_check at 1. change (clock w2 (ticks w2)) with (clock w (S (ticks w))).
        change (requestCount w2) with rc1. rewrite Hrc2. simpl. lia.
      - change (requestCount w3) with (snd (rate_check w2)).
        unfold rate_check at 1. change (clock w2 (ticks w2)) with (clock w (S (ticks w))).
        change (requestCount w2) with rc1. rewrite Hrc2. simpl. exact Hwin. }
    rewrite (getDescriptionsData_throttled (id :: ids) w3 "Rate limit exceeded")
      by (rewrite Hthrow3; reflexivity).
    destruct cp as [poisData | ep]; [eauto |].
    change (sent w3) with (sent w2 ++ [mkRequest pois_endpoint (ids_params (id :: ids))
                                         (fetch_headers (apiKey w2))])%list.
    cbn [after_check sent]. rewrite length_snoc_neq, Nat.eqb_refl. simpl. eauto.
  - rewrite (getPoisData_throttled (id :: ids) w2 _ Hthrow2).
    destruct (getDescriptionsData (id :: ids) (after_check (snd (rate_check w2)) w2))
      as [[descData | ed] w4]; [eauto |].
    cbn [after_check sent]. rewrite Nat.eqb_refl. simpl. eauto.
Qed.

Lemma performLocalSearch_pois_throttled_witness :
  fst (performLocalSearch "coffee" None
         (local_world (fun n => match n with
                                | O => 0 | S O => 5000 | S (S _) => 5001
                                end)))
  = Throw "Rate limit exceeded".
Proof.
  eapply (performLocalSearch_pois_throttled "coffee" None
            (local_world (fun n => match n with
                                   | O => 0 | S O => 5000 | S (S _) => 5001
                                   end))
            (Response.mk true 200 "OK" "" (Normal one_location)) one_location);
    first [ reflexivity | discriminate | simpl; lia
          | vm_compute; intros Hgt; discriminate Hgt ].
Defined.

(** A rate check more than 1000 ms after the last reset, below the monthly
    limit: it resets the window and passes. *)
Lemma checkRateLimit_at_reset_pass now rc :
  1000 < now - lastReset rc ->
  month rc < 15000 ->
  checkRateLimit_at now rc = (Normal tt, mkRequestCount 1 (month rc + 1) now).
Proof.
  intros Hlate Hm. unfold checkRateLimit_at.
  replace (1000 <? now - lastReset rc) with true by (symmetry; apply Z.ltb_lt; lia).
  unfold RATE_LIMIT.perSecond, RATE_LIMIT.perMonth. simpl.
  replace (15000 <=? month rc) with false by (symmetry; apply Z.leb_gt; lia).
  reflexivity.
Qed.

(** X5.  The POI path completes when time allows.  If the first rate check
    passes, the monthly counter leaves room for three requests, the POI
    check reads the clock more than 1000 ms after the last reset and the
    descriptions check more than 1000 ms after the POI check, and the
    upstream answers the three requests with successful, parsed bodies,
    the first with at least one identifier, then the local search returns
    the formatted POIs (what [formatLocalResults] gives for the two bodies,
    a text whenever the descriptions body has its [descriptions] object);
    it has sent, in this order, the locations request, the POI request and
    the descriptions request, the last two with the identifiers as their
    [ids] parameters, and the monthly counter is three higher. *)
Theorem performLocalSearch_pois_path query count w
    webResponse webData poisResponse poisData descResponse descData :
  0 <= second (requestCount w) ->
  fst (rate_check w) = Normal tt ->
  month (requestCount w) + 3 <= 15000 ->
  1000 < clock w (S (ticks w)) - lastReset (snd (rate_check w)) ->
  1000 < clock w (S (S (ticks w))) - clock w (S (ticks w)) ->
  webApi w (length (sent w))
    (locations_request query (Js.nullish count 5) (apiKey w)) = Normal webResponse ->
  Response.ok webResponse = true ->
  Response.json webResponse = Normal webData ->
  locationIds_of webData <> [] ->
  poisApi w (length (sent w) + 1)%nat
    (mkRequest pois_endpoint (ids_params (locationIds_of webData))
       (fetch_headers (apiKey w))) = Normal poisResponse ->
  Response.ok poisResponse = true ->
  Response.json poisResponse = Normal poisData ->
  descriptionsApi w (length (sent w) + 2)%nat
    (mkRequest descriptions_endpoint (ids_params (locationIds_of webData))
       (fetch_headers (apiKey w))) = Normal descResponse ->
  Response.ok descResponse = true ->
  Response.json descResponse = Normal descData ->
  fst (performLocalSearch query count w)
  = formatLocalResults poisData descData
  /\ sent (snd (performLocalSearch query count w))
     = (sent w
        ++ [ locations_request query (Js.nullish count 5) (apiKey w);
             mkRequest pois_endpoint (ids_params (locationIds_of webData))
               (fetch_headers (apiKey w));
             mkRequest descriptions_endpoint (ids_params (locationIds_of webData))
               (fetch_headers (apiKey w)) ])%list
  /\ month (requestCount (snd (performLocalSearch query count w)))
     = month (requestCount w) + 3
  /\ (forall table, descriptions descData = Some table ->
      exists text, fst (performLocalSearch query count w) = Normal text).
Proof.
  intros Hs Hpass Hroom Hgap1 Hgap2 Hweb Hwebok Hwebjson Hids
         Hpois Hpoisok Hpoisjson Hdesc Hdescok Hdescjson.
  rewrite (performLocalSearch_admitted_run query count w Hpass). cbv zeta.
  rewrite Hweb, Hwebok, Hwebjson.
  set (ids := locationIds_of webData) in *.
  replace (Nat.eqb (length ids) 0) with false
    by (destruct ids; [contradiction | reflexivity]).
  set (rc1 := snd (rate_check w)) in *.
  set (req0 := locations_request query (Js.nullish count 5) (apiKey w)).
  set (w2 := after_send req0 (after_check rc1 w)).
  destruct (checkRateLimit_at_pass _ _ Hs Hpass) as (Hone & Hmonth1 & _).
  fold (rate_check w) in Hone, Hmonth1. fold rc1 in Hone, Hmonth1.
  (* the POI check *)
  assert (Hcheck2 : rate_check w2
                    = (Normal tt, mkRequestCount 1 (month rc1 + 1) (clock w (S (ticks w))))).
  { apply (checkRateLimit_at_reset_pass (clock w (S (ticks w))) rc1); [exact Hgap1 | lia]. }
  set (rc2 := mkRequestCount 1 (month rc1 + 1) (clock w (S (ticks w)))) in *.
  set (reqp := mkRequest pois_endpoint (ids_params ids) (fetch_headers (apiKey w))) in *.
  set (w3 := after_send reqp (after_check rc2 w2)).
  assert (Hp : getPoisData ids w2 = (Normal poisData, w3)).
  { rewrite (getPoisData_admitted_run ids w2) by (rewrite Hcheck2; reflexivity).
    cbv zeta. rewrite Hcheck2. cbn [snd].
    change (apiKey w2) with (apiKey w). fold reqp. fold w3.
    change (poisApi w2) with (poisApi w).
    replace (length (sent w2)) with (length (sent w) + 1)%nat
      by (subst w2; simpl; rewrite length_app; reflexivity).
    rewrite Hpois, Hpoisok, Hpoisjson. reflexivity. }
  (* the descriptions check *)
  assert (Hcheck3 : rate_check w3
                    = (Normal tt,
                       mkRequestCount 1 (month rc2 + 1) (clock w (S (S (ticks w)))))).
  { apply (checkRateLimit_at_reset_pass (clock w (S (S (ticks w)))) rc2);
      [exact Hgap2 | simpl; lia]. }
  set (rc3 := mkRequestCount 1 (month rc2 + 1) (clock w (S (S (ticks w))))) in *.
  set (reqd := mkRequest descriptions_endpoint (ids_params ids)
                 (fetch_headers (apiKey w))) in *.
  set (w4 := after_send reqd (after_check rc3 w3)).
  assert (Hq : getDescriptionsData ids w3 = (Normal descData, w4)).
  { rewrite (getDescriptionsData_admitted_run ids w3) by (rewrite Hcheck3; reflexivity).
    cbv zeta. rewrite Hcheck3. cbn [snd].
    change (apiKey w3) with (apiKey w). fold reqd. fold w4.
    change (descriptionsApi w3) with (descriptionsApi w).
    replace (length (sent w3)) with (length (sent w) + 2)%nat
      by (subst w3 w2; simpl; rewrite !length_app; simpl; lia).
    rewrite Hdesc, Hdescok, Hdescjson. reflexivity. }
  unfold bind, Promise_all2. rewrite Hp, Hq. simpl.
  split; [reflexivity |].
  split; [rewrite <- !app_assoc; reflexivity |].
  split; [lia |].
  intros table Htable. apply (formatLocalResults_returns poisData descData table Htable).
Qed.

Lemma performLocalSearch_pois_path_witness :
  fst (performLocalSearch "coffee" (Some 3) (local_world slow_clock))
  = Normal ("Name: Cafe" ++ LF
            ++ "Address: 1 Main St" ++ LF
            ++ "Phone: N/A" ++ LF
            ++ "Rating: 4 (0 reviews)" ++ LF
            ++ "Price Range: N/A" ++ LF
            ++ "Hours: N/A" ++ LF
            ++ "Description: Good coffee" ++ LF)
  /\ length (sent (snd (performLocalSearch "coffee" (Some 3) (local_world slow_clock))))
     = 3%nat.
Proof.
  destruct (performLocalSearch_pois_path "coffee" (Some 3) (local_world slow_clock)
              (Response.mk true 200 "OK" "" (Normal one_location)) one_location
              (Response.mk true 200 "OK" ""
                 (Normal (mkBravePoiResponse (Some [sample_poi]))))
              (mkBravePoiResponse (Some [sample_poi]))
              (Response.mk true 200 "OK" ""
                 (Normal (mkBraveDescription (Some {["loc1" := "Good coffee"]}))))
              (mkBraveDescription (Some {["loc1" := "Good coffee"]})))
    as (Htext & Hsent & _).
  - vm_compute. discriminate.
  - reflexivity.
  - vm_compute. discriminate.
  - vm_compute. reflexivity.
  - vm_compute. reflexivity.
  - reflexivity.
  - reflexivity.
  - reflexivity.
  - discriminate.
  - reflexivity.
  - reflexivity.
  - reflexivity.
  - reflexivity.
  - reflexivity.
  - reflexivity.
  - split; [rewrite Htext; reflexivity | rewrite Hsent; reflexivity].
Defined.

(** ** Empty results *)

(** X6.  A web search that the upstream answers successfully but without
    results (no [web] object, no [results] in it, or an empty list) is not
    an error: the tool answers with the success envelope around the empty
    text. *)
Theorem callTool_web_search_no_results request args w response data :
  arguments request = Some args ->
  tool_name request = "brave_web_search" ->
  isBraveWebSearchArgs args = true ->
  fst (rate_check w) = Normal tt ->
  webApi w (length (sent w))
    (web_search_request (query_string args) (Js.nullish (count args) 10) 0 (apiKey w))
  = Normal response ->
  Response.ok response = true ->
  Response.json response = Normal data ->
  web_results_of data = [] ->
  fst (callTool request w)
  = Normal (mkCallToolResult [mkTextContent "text" ""] false).
Proof.
  intros Hargs Hname Hvalid Hpass Hanswer Hok Hjson Hnone.
  rewrite (callTool_well_formed request args w)
    by (split; [exact Hargs | left; split; assumption]).
  unfold search_of. rewrite Hname. cbn -[performWebSearch].
  rewrite (performWebSearch_admitted_run _ _ _ w Hpass). cbv zeta.
  cbn [Js.nullish]. rewrite Hanswer, Hok, Hjson, formatWebResults_blocks, Hnone.
  reflexivity.
Qed.

Lemma callTool_web_search_no_results_witness :
  fst (callTool sample_call (sample_world slow_clock (fun _ => mkBraveWeb None None)))
  = Normal (mkCallToolResult [mkTextContent "text" ""] false).
Proof.
  eapply (callTool_web_search_no_results sample_call
            (mkArguments (Some (Js.Str "test")) (Some 25))
            (sample_world slow_clock (fun _ => mkBraveWeb None None))
            (Response.mk true 200 "OK" "" (Normal (mkBraveWeb None None)))
            (mkBraveWeb None None));
    reflexivity.
Defined.

(** ** Registry and dispatch *)

Lemma callTool_invalid_arguments request args w :
  arguments request = Some args ->
  isBraveWebSearchArgs args = false ->
  (tool_name request = "brave_web_search" ->
   fst (callTool request w)
   = Normal (failure "Error: Invalid arguments for brave_web_search"))
  /\ (tool_name request = "brave_local_search" ->
      fst (callTool request w)
      = Normal (failure "Error: Invalid arguments for brave_local_search")).
Proof.
  intros Hargs Hinvalid.
  split; intros Hname; unfold callTool, try_catch; rewrite Hargs, Hname;
    cbn -[performWebSearch performLocalSearch isBraveWebSearchArgs
          isBraveLocalSearchArgs];
    [| change (isBraveLocalSearchArgs args) with (isBraveWebSearchArgs args)];
    rewrite Hinvalid; reflexivity.
Qed.

(** A call of a listed tool is never answered 'Unknown tool'. *)
Lemma callTool_known_not_unknown request args w text :
  arguments request = Some args ->
  tool_name request = "brave_web_search" \/ tool_name request = "brave_local_search" ->
  fst (callTool request w) <> Normal (failure ("Unknown tool: " ++ text)).
Proof.
  intros Hargs Hname Hunknown.
  destruct (isBraveWebSearchArgs args) eqn:Hvalid.
  - assert (Hwf : well_formed_call request args).
    { split; [exact Hargs |].
      destruct Hname as [Hname | Hname]; [left | right]; split; assumption. }
    rewrite (callTool_well_formed request args w Hwf) in Hunknown.
    destruct (search_of request args w) as [[results | message] w'];
      simpl in Hunknown; inversion Hunknown.
  - destruct (callTool_invalid_arguments request args w Hargs Hvalid) as [Hweb Hlocal].
    destruct Hname as [Hname | Hname];
      [rewrite (Hweb Hname) in Hunknown | rewrite (Hlocal Hname) in Hunknown];
      inversion Hunknown.
Qed.

(** X7.  The registry and the dispatch agree on the names: a call that
    supplies arguments is answered with the failure 'Unknown tool: <name>'
    exactly when its name is not the name of a tool that the list-tools
    handler returns. *)
Theorem callTool_unknown_iff_unlisted request args w :
  arguments request = Some args ->
  fst (callTool request w) = Normal (failure ("Unknown tool: " ++ tool_name request))
  <-> ~ In (tool_name request) (map Tool.name listTools).
Proof.
  intros Hargs. split.
  - intros Hunknown Hlisted. simpl in Hlisted.
    apply (callTool_known_not_unknown request args w (tool_name request) Hargs);
      [| exact Hunknown].
    destruct Hlisted as [H | [H | []]]; [left | right]; symmetry; exact H.
  - intros Hunlisted. simpl in Hunlisted.
    assert (Hweb : String.eqb (tool_name request) "brave_web_search" = false)
      by (apply String.eqb_neq; intros H; apply Hunlisted; left; symmetry; exact H).
    assert (Hlocal : String.eqb (tool_name request) "brave_local_search" = false)
      by (apply String.eqb_neq; intros H; apply Hunlisted; right; left; symmetry;
          exact H).
    unfold callTool, try_catch. rewrite Hargs, Hweb, Hlocal. reflexivity.
Qed.

Lemma callTool_unknown_iff_unlisted_witness :
  fst (callTool (mkCallToolRequest "brave_news_search"
                   (Some (mkArguments (Some (Js.Str "x")) None)))
         (sample_world slow_clock (fun _ => one_web_result)))
  = Normal (failure "Unknown tool: brave_news_search").
Proof.
  apply (callTool_unknown_iff_unlisted
           (mkCallToolRequest "brave_news_search"
              (Some (mkArguments (Some (Js.Str "x")) None)))
           (mkArguments (Some (Js.Str "x")) None)
           (sample_world slow_clock (fun _ => one_web_result)));
    [reflexivity |].
  simpl. intros [H | [H | []]]; discriminate H.
Defined.

(** The first request of a local search whose rate check passes. *)
Lemma performLocalSearch_first_request query count w :
  fst (rate_check w) = Normal tt ->
  exists rest,
    sent (snd (performLocalSearch query count w))
    = (sent w ++ locations_request query (Js.nullish count 5) (apiKey w) :: rest)%list.
Proof.
  intros Hpass.
  pose proof (follows_performWebSearch query (Some (Js.nullish count 5)) None) as Hweb.
  rewrite (performLocalSearch_admitted_run query count w Hpass). cbv zeta.
  set (req := locations_request query (Js.nullish count 5) (apiKey w)).
  set (w2 := after_send req (after_check (snd (rate_check w)) w)).
  assert (Hfrom : forall w', follows w2 w' ->
            exists rest, sent w' = (sent w ++ req :: rest)%list).
  { intros w' (new & Hsent & _). exists new. rewrite Hsent. subst w2. simpl.
    rewrite <- app_assoc. reflexivity. }
  destruct (webApi w (length (sent w)) req) as [webResponse | e];
    [| apply Hfrom, follows_refl].
  destruct (Response.ok webResponse); [| apply Hfrom, follows_refl].
  destruct (Response.json webResponse) as [webData | e]; [| apply Hfrom, follows_refl].
  destruct (Nat.eqb (length (locationIds_of webData)) 0).
  - apply Hfrom, Hweb.
  - apply Hfrom.
    apply (world_bind follows follows_trans);
      [| intros both; apply world_sync; exact follows_refl].
    apply world_Promise_all2;
      [exact follows_trans | apply follows_getPoisData | apply follows_getDescriptionsData].
Qed.

(** X8.  The default that a tool declares for [count] in its input schema
    is the one the dispatch applies: when a listed tool is called with a
    query and no count and its rate check passes, the first request it
    sends carries the declared default as its [count] parameter (10 for
    the web search, 5 for the local search). *)
Theorem declared_count_default_applied tool property (d : Z) (q : string) w :
  In tool listTools ->
  In ("count", property) (Tool.InputSchema.properties (Tool.inputSchema tool)) ->
  Tool.Property.default property = Some d ->
  fst (rate_check w) = Normal tt ->
  exists req rest,
    sent (snd (callTool (mkCallToolRequest (Tool.name tool)
                           (Some (mkArguments (Some (Js.Str q)) None))) w))
    = (sent w ++ req :: rest)%list
    /\ Js.getAll "count" (searchParams req) = [Js.toString d].
Proof.
  intros Htool Hproperty Hdefault Hpass.
  set (args := mkArguments (Some (Js.Str q)) None).
  destruct Htool as [<- | [<- | []]]; simpl in Hproperty.
  - destruct Hproperty as [H | [H | [H | []]]]; inversion H; subst property;
      simpl in Hdefault; inversion Hdefault; subst d.
    rewrite (callTool_well_formed _ args w)
      by (split; [reflexivity | left; split; reflexivity]).
    unfold search_of. cbn -[performWebSearch].
    rewrite (performWebSearch_admitted_run _ _ _ w Hpass). cbv zeta.
    eexists. exists [].
    split; [destruct (webApi w _ _) as [r | e];
              [destruct (Response.ok r); [destruct (Response.json r) |] |];
              reflexivity
           | reflexivity].
  - destruct Hproperty as [H | [H | []]]; inversion H; subst property;
      simpl in Hdefault; inversion Hdefault; subst d.
    rewrite (callTool_well_formed _ args w)
      by (split; [reflexivity | right; split; reflexivity]).
    unfold search_of. cbn -[performLocalSearch].
    destruct (performLocalSearch_first_request q (Some 5) w Hpass) as [rest Hsent].
    destruct (performLocalSearch q (Some 5) w) as [[results | message] w'];
      simpl in *; exists (locations_request q 5 (apiKey w)), rest;
      (split; [exact Hsent | reflexivity]).
Qed.

Lemma declared_count_default_applied_witness :
  exists req rest,
    sent (snd (callTool (mkCallToolRequest "brave_local_search"
                           (Some (mkArguments (Some (Js.Str "coffee")) None)))
                 (local_world slow_clock)))
    = req :: rest
    /\ Js.getAll "count" (searchParams req) = ["5"].
Proof.
  apply (declared_count_default_applied LOCAL_SEARCH_TOOL
           (Tool.Property.mk "number" "Number of results (1-20, default 5)" (Some 5))
           5 "coffee" (local_world slow_clock)).
  - right. left. reflexivity.
  - right. left. reflexivity.
  - reflexivity.
  - reflexivity.
Defined.

(** ** Command line *)

Section CommandLineProperties.

Variable parseInt : string -> number.

Lemma with_headless_of_nil options : with_headless_of [] options = options.
Proof. destruct options; reflexivity. Qed.

Lemma parseArgs_from_step arg value (rest : list string) options :
  parseArgs_from parseInt (arg :: value :: rest) options
  = if String.eqb arg "--port"
    then parseArgs_from parseInt rest
           (mkOptions (Some (parseInt value)) (headless options))
    else if String.eqb arg "--headless"
    then parseArgs_from parseInt (value :: rest) (mkOptions (port options) (Some true))
    else parseArgs_from parseInt (value :: rest) options.
Proof. reflexivity. Qed.

(** Arguments before the first [--port] are read one by one: of them only
    [--headless] matters. *)
Lemma parseArgs_from_prefix (pre suffix : list string) options :
  ~ In "--port" pre ->
  parseArgs_from parseInt (pre ++ suffix) options
  = parseArgs_from parseInt suffix (with_headless_of pre options).
Proof.
  revert options. induction pre as [| arg pre IH]; intros options Hnone.
  - rewrite with_headless_of_nil. reflexivity.
  - assert (Harg : String.eqb arg "--port" = false)
      by (apply String.eqb_neq; intros ->; apply Hnone; left; reflexivity).
    assert (Hpre : ~ In "--port" pre) by (intros H; apply Hnone; right; exact H).
    change ((arg :: pre) ++ suffix)%list with (arg :: (pre ++ suffix))%list.
    destruct (pre ++ suffix)%list as [| value rest'] eqn:Hrest.
    + apply app_eq_nil in Hrest as [-> ->]. simpl.
      unfold with_headless_of. simpl.
      destruct (String.eqb arg "--headless"); [reflexivity | destruct options; reflexivity].
    + rewrite parseArgs_from_step, Harg.
      destruct (String.eqb arg "--headless") eqn:Hflag.
      * rewrite (IH _ Hpre). f_equal. unfold with_headless_of. simpl.
        rewrite Hflag. simpl. destruct (existsb _ pre); reflexivity.
      * rewrite (IH _ Hpre). f_equal. unfold with_headless_of. simpl.
        rewrite Hflag. reflexivity.
Qed.

Lemma existsb_headless (args : list string) :
  existsb (fun arg => String.eqb arg "--headless") args = true <-> In "--headless" args.
Proof.
  rewrite existsb_exists. split.
  - intros (arg & Hin & Heq). apply String.eqb_eq in Heq. subst arg. exact Hin.
  - intros Hin. exists "--headless". split; [exact Hin | reflexivity].
Qed.

Lemma headless_with_headless_of (args : list string) :
  headless (with_headless_of args (mkOptions None None)) = Some true
  <-> In "--headless" args.
Proof.
  unfold with_headless_of. simpl. rewrite <- existsb_headless.
  destruct (existsb _ args); split; intros H; first [reflexivity | discriminate].
Qed.

End CommandLineProperties.

(** X9.  Without a [--port] among the arguments, or with [--port] only as
    the very last argument (nothing follows it), no port is set and the
    server runs on standard input and output; [headless] is set exactly
    when [--headless] is among the arguments. *)
Theorem runServer_stdio_without_port (parseInt : string -> number) (argv : list string) :
  (~ In "--port" (drop 2 argv)
   \/ exists pre, drop 2 argv = (pre ++ ["--port"])%list /\ ~ In "--port" pre) ->
  port (parseArgs parseInt argv) = None
  /\ runServer_mode parseInt argv = StdioMode
  /\ (headless (parseArgs parseInt argv) = Some true <-> In "--headless" (drop 2 argv)).
Proof.
  intros Hcase.
  assert (Hparsed : parseArgs parseInt argv
                    = with_headless_of (drop 2 argv) (mkOptions None None)
                    \/ exists pre, drop 2 argv = (pre ++ ["--port"])%list
                         /\ parseArgs parseInt argv
                            = with_headless_of pre (mkOptions None None)).
  { unfold parseArgs. destruct Hcase as [Hnone | (pre & Heq & Hnone)].
    - left. rewrite <- (app_nil_r (drop 2 argv)) at 1.
      rewrite (parseArgs_from_prefix parseInt _ [] _ Hnone). reflexivity.
    - right. exists pre. split; [exact Heq |].
      rewrite Heq, (parseArgs_from_prefix parseInt _ _ _ Hnone). reflexivity. }
  destruct Hparsed as [Heq | (pre & Hargs & Heq)].
  - unfold runServer_mode. rewrite Heq. split; [reflexivity |].
    split; [reflexivity | apply headless_with_headless_of].
  - unfold runServer_mode. rewrite Heq. split; [reflexivity |].
    split; [reflexivity |].
    rewrite headless_with_headless_of, Hargs, in_app_iff. simpl.
    split; [intros H; left; exact H |].
    intros [H | [H | []]]; [exact H | discriminate H].
Qed.

Lemma runServer_stdio_without_port_witness :
  runServer_mode sample_parseInt ["node"; "index.js"; "--headless"; "--port"] = StdioMode
  /\ headless (parseArgs sample_parseInt ["node"; "index.js"; "--headless"; "--port"])
     = Some true.
Proof.
  destruct (runServer_stdio_without_port sample_parseInt
              ["node"; "index.js"; "--headless"; "--port"])
    as (_ & Hmode & Hflag).
  - right. exists ["--headless"]. split; [reflexivity |].
    simpl. intros [H | []]. discriminate H.
  - split; [exact Hmode | apply Hflag; simpl; left; reflexivity].
Defined.

(** X10.  With one [--port] followed by a value, the port is [parseInt] of
    that value, and the value is not read as a flag: [headless] is set
    exactly when [--headless] occurs elsewhere.  The server listens on HTTP
    only if the port is a number other than zero; a value that does not
    parse (NaN) or parses to 0 silently selects standard input and
    output. *)
Theorem runServer_port_value (parseInt : string -> number)
    (node script : string) (pre : list string) (value : string) (rest : list string) :
  ~ In "--port" pre ->
  ~ In "--port" rest ->
  let argv := (node :: script :: pre ++ "--port" :: value :: rest)%list in
  port (parseArgs parseInt argv) = Some (parseInt value)
  /\ (headless (parseArgs parseInt argv) = Some true
      <-> In "--headless" (pre ++ rest)%list)
  /\ (forall n, parseInt value = Num n -> n <> 0 ->
      runServer_mode parseInt argv = HttpMode (Num n))
  /\ (parseInt value = NaN \/ parseInt value = Num 0 ->
      runServer_mode parseInt argv = StdioMode).
Proof.
  intros Hpre Hrest argv.
  assert (Hparsed : parseArgs parseInt argv
                    = mkOptions (Some (parseInt value))
                        (headless (with_headless_of (pre ++ rest)
                                     (mkOptions None None)))).
  { unfold parseArgs.
    change (drop 2 argv) with (pre ++ "--port" :: value :: rest)%list.
    rewrite (parseArgs_from_prefix parseInt _ _ _ Hpre).
    rewrite parseArgs_from_step. cbn [String.eqb Ascii.eqb Bool.eqb].
    rewrite <- (app_nil_r rest) at 1.
    rewrite (parseArgs_from_prefix parseInt _ [] _ Hrest).
    unfold with_headless_of. simpl. rewrite existsb_app.
    destruct (existsb _ pre), (existsb _ rest); reflexivity. }
  unfold runServer_mode. rewrite Hparsed. cbn [port headless].
  split; [reflexivity |].
  split; [apply headless_with_headless_of |].
  split.
  - intros n -> Hn. simpl. apply Z.eqb_neq in Hn. rewrite Hn. reflexivity.
  - intros [-> | ->]; reflexivity.
Qed.

Lemma runServer_port_value_witness :
  runServer_mode sample_parseInt ["node"; "index.js"; "--port"; "8000"]
  = HttpMode (Num 8000)
  /\ runServer_mode sample_parseInt ["node"; "index.js"; "--port"; "--headless"]
     = StdioMode
  /\ headless (parseArgs sample_parseInt ["node"; "index.js"; "--port"; "--headless"])
     <> Some true.
Proof.
  split; [| split].
  - destruct (runServer_port_value sample_parseInt "node" "index.js" [] "8000" [])
      as (_ & _ & Hhttp & _); [intros [] | intros [] |].
    apply (Hhttp 8000); [reflexivity | discriminate].
  - destruct (runServer_port_value sample_parseInt "node" "index.js" [] "--headless" [])
      as (_ & _ & _ & Hstdio); [intros [] | intros [] |].
    apply Hstdio. left. reflexivity.
  - destruct (runServer_port_value sample_parseInt "node" "index.js" [] "--headless" [])
      as (_ & Hflag & _); [intros [] | intros [] |].
    intros Hset. apply Hflag in Hset. destruct Hset.
Defined.

(** ** HTTP front *)

Section HttpProperties.

Import Http.

Implicit Types (sdk : Sdk) (req : IncomingMessage) (st : State).

Lemma truthy_nonempty (s : string) : s <> "" -> Js.truthy s = true.
Proof. destruct s; [contradiction | reflexivity]. Qed.

(** A request on [/mcp] that names a session of the table. *)
Lemma on_request_session sdk req st id session :
  pathname req = "/mcp" ->
  mcp_session_id req = Some id ->
  id <> "" ->
  streamableSessions st !! id = Some session ->
  on_request sdk req st
  = (match outcome (handleRequest sdk (transport session) req) with
     | Normal _ => Normal (HandedTo (transport session))
     | Throw error => Throw error
     end,
     foldl (fire (transport session) (server session)) st
       (callbacks (handleRequest sdk (transport session) req))).
Proof.
  intros Hpath Hid Hne Hlookup. unfold on_request, handleStreamable.
  rewrite Hpath, Hid. cbn [String.eqb Ascii.eqb Bool.eqb Js.nullish].
  rewrite (truthy_nonempty id Hne), Hlookup.
  destruct (outcome (handleRequest sdk (transport session) req)); reflexivity.
Qed.

(** A request on [/mcp] that names a session the table does not hold. *)
Lemma on_request_unknown_session sdk req st id :
  pathname req = "/mcp" ->
  mcp_session_id req = Some id ->
  id <> "" ->
  streamableSessions st !! id = None ->
  on_request sdk req st = (Normal (Ended 404 None "Session not found"), st).
Proof.
  intros Hpath Hid Hne Hlookup. unfold on_request, handleStreamable.
  rewrite Hpath, Hid. cbn [String.eqb Ascii.eqb Bool.eqb Js.nullish].
  rewrite (truthy_nonempty id Hne), Hlookup. reflexivity.
Qed.

(** A [POST] on [/mcp] without session identifier, when [connect]
    completes. *)
Lemma on_request_new_session sdk req st :
  pathname req = "/mcp" ->
  mcp_session_id req = None \/ mcp_session_id req = Some "" ->
  method req = "POST" ->
  connect sdk (created st) (S (created st)) = Normal tt ->
  let tr := S (created st) in
  let st1 := mkState (streamableSessions st) (S (S (created st))) (console st) in
  let st2 := foldl (fire tr (created st)) st1 (callbacks (handleRequest sdk tr req)) in
  on_request sdk req st
  = match outcome (handleRequest sdk tr req) with
    | Normal _ => (Normal (HandedTo tr), st2)
    | Throw error => (Normal (HandedTo tr), log (StreamableConnectionError error) st2)
    end.
Proof.
  intros Hpath Hid Hmethod Hconnect tr st1 st2. unfold on_request, handleStreamable.
  rewrite Hpath, Hmethod. cbn [String.eqb Ascii.eqb Bool.eqb].
  replace (Js.truthy (Js.nullish (mcp_session_id req) "")) with false
    by (destruct Hid as [-> | ->]; reflexivity).
  unfold create_pair. rewrite Hconnect. reflexivity.
Qed.

End HttpProperties.

(** X11.  Requests the front rejects are answered at once and change
    nothing (no server or transport is created, the session table is as
    before): a path other than [/sse] and [/mcp] gets 404 'Not Found' as
    text/plain; on [/mcp], a session identifier that the table does not
    hold gets 404 'Session not found', and a request without session
    identifier (absent or empty) whose method is not POST gets 400
    'Invalid request'. *)
Theorem on_request_rejections (sdk : Http.Sdk) (req : Http.IncomingMessage)
    (st : Http.State) :
  (Http.pathname req <> "/sse" -> Http.pathname req <> "/mcp" ->
   Http.on_request sdk req st
   = (Normal (Http.Ended 404 (Some "text/plain") "Not Found"), st))
  /\ (forall id,
        Http.pathname req = "/mcp" ->
        Http.mcp_session_id req = Some id -> id <> "" ->
        Http.streamableSessions st !! id = None ->
        Http.on_request sdk req st
        = (Normal (Http.Ended 404 None "Session not found"), st))
  /\ (Http.pathname req = "/mcp" ->
      Http.mcp_session_id req = None \/ Http.mcp_session_id req = Some "" ->
      Http.method req <> "POST" ->
      Http.on_request sdk req st
      = (Normal (Http.Ended 400 None "Invalid request"), st)).
Proof.
  split; [| split].
  - intros Hsse Hmcp. unfold Http.on_request.
    apply String.eqb_neq in Hsse, Hmcp. rewrite Hsse, Hmcp. reflexivity.
  - intros id. apply on_request_unknown_session.
  - intros Hpath Hid Hmethod. unfold Http.on_request, Http.handleStreamable.
    rewrite Hpath. cbn [String.eqb Ascii.eqb Bool.eqb].
    replace (Js.truthy (Js.nullish (Http.mcp_session_id req) "")) with false
      by (destruct Hid as [-> | ->]; reflexivity).
    apply String.eqb_neq in Hmethod. rewrite Hmethod. reflexivity.
Qed.

Lemma on_request_rejections_witness :
  Http.on_request sample_sdk (Http.mkIncomingMessage "GET" "/mcp" None)
    Http.initial_state
  = (Normal (Http.Ended 400 None "Invalid request"), Http.initial_state)
  /\ Http.on_request sample_sdk (Http.mkIncomingMessage "POST" "/mcp" (Some "nope"))
       Http.initial_state
     = (Normal (Http.Ended 404 None "Session not found"), Http.initial_state).
Proof.
  split.
  - apply (on_request_rejections sample_sdk
             (Http.mkIncomingMessage "GET" "/mcp" None) Http.initial_state);
      [reflexivity | left; reflexivity | discriminate].
  - apply (on_request_rejections sample_sdk
             (Http.mkIncomingMessage "POST" "/mcp" (Some "nope")) Http.initial_state
           ) with (id := "nope"); [reflexivity | reflexivity | discriminate |].
    reflexivity.
Defined.

(** X12.  Registering a session makes it reachable.  When a POST on [/mcp]
    without session identifier is handled by a new transport that fires
    [onsessioninitialized] with an identifier, the table then holds, under
    this identifier, that transport and the server created with it, the
    entries under other identifiers are as before, and a later request on
    [/mcp] carrying the identifier is handed to the same transport. *)
Theorem session_registered_then_routed (sdk : Http.Sdk)
    (init later : Http.IncomingMessage) (st : Http.State) (id : string)
    (result : Completion unit) :
  Http.pathname init = "/mcp" ->
  Http.mcp_session_id init = None \/ Http.mcp_session_id init = Some "" ->
  Http.method init = "POST" ->
  Http.connect sdk (Http.created st) (S (Http.created st)) = Normal tt ->
  Http.handleRequest sdk (S (Http.created st)) init
  = Http.mkHandling [Http.onsessioninitialized id] result ->
  id <> "" ->
  Http.pathname later = "/mcp" ->
  Http.mcp_session_id later = Some id ->
  Http.outcome (Http.handleRequest sdk (S (Http.created st)) later) = Normal tt ->
  let st1 := snd (Http.on_request sdk init st) in
  Http.streamableSessions st1 !! id
  = Some (Http.mkSession (S (Http.created st)) (Http.created st))
  /\ (forall other, other <> id ->
      Http.streamableSessions st1 !! other = Http.streamableSessions st !! other)
  /\ fst (Http.on_request sdk later st1) = Normal (Http.HandedTo (S (Http.created st))).
Proof.
  intros Hpath Hnoid Hpost Hconnect Hinit Hne Hpath' Hid' Hlater st1.
  assert (Htable : Http.streamableSessions st1
                   = <[id := Http.mkSession (S (Http.created st)) (Http.created st)]>
                       (Http.streamableSessions st)).
  { subst st1. rewrite (on_request_new_session sdk init st Hpath Hnoid Hpost Hconnect).
    cbv zeta. rewrite Hinit. simpl. destruct result; reflexivity. }
  assert (Hlookup : Http.streamableSessions st1 !! id
                    = Some (Http.mkSession (S (Http.created st)) (Http.created st)))
    by (rewrite Htable; apply lookup_insert_eq).
  split; [exact Hlookup |].
  split; [intros other Hother; rewrite Htable; apply lookup_insert_ne; congruence |].
  rewrite (on_request_session sdk later st1 id _ Hpath' Hid' Hne Hlookup).
  simpl. rewrite Hlater. reflexivity.
Qed.

Lemma session_registered_then_routed_witness :
  fst (Http.on_request sample_sdk (Http.mkIncomingMessage "GET" "/mcp" (Some "abc"))
         (snd (Http.on_request sample_sdk (Http.mkIncomingMessage "POST" "/mcp" None)
                 Http.initial_state)))
  = Normal (Http.HandedTo 1).
Proof.
  eapply (session_registered_then_routed sample_sdk
            (Http.mkIncomingMessage "POST" "/mcp" None)
            (Http.mkIncomingMessage "GET" "/mcp" (Some "abc"))
            Http.initial_state "abc" (Normal tt));
    first [ reflexivity | discriminate | left; reflexivity ].
Defined.

(** X13.  Closing a session makes it unreachable.  When a request on a
    session of the table makes its transport fire [onclose], the transport
    knowing its session identifier, the entry is removed, the entries under
    other identifiers stay, and any later request on [/mcp] carrying the
    identifier gets 404 'Session not found'.  A transport that closes
    without session identifier removes nothing. *)
Theorem session_closed_then_not_found (sdk : Http.Sdk)
    (req : Http.IncomingMessage) (st : Http.State) (id : string)
    (session : Http.Session) (result : Completion unit) :
  Http.pathname req = "/mcp" ->
  Http.mcp_session_id req = Some id ->
  id <> "" ->
  Http.streamableSessions st !! id = Some session ->
  Http.handleRequest sdk (Http.transport session) req
  = Http.mkHandling [Http.onclose (Some id)] result ->
  let st1 := snd (Http.on_request sdk req st) in
  Http.streamableSessions st1 !! id = None
  /\ (forall other, other <> id ->
      Http.streamableSessions st1 !! other = Http.streamableSessions st !! other)
  /\ (forall later,
        Http.pathname later = "/mcp" -> Http.mcp_session_id later = Some id ->
        Http.on_request sdk later st1
        = (Normal (Http.Ended 404 None "Session not found"), st1))
  /\ (forall tr srv st0,
        Http.fire tr srv st0 (Http.onclose None) = st0
        /\ Http.fire tr srv st0 (Http.onclose (Some "")) = st0).
Proof.
  intros Hpath Hid Hne Hlookup Hclose st1.
  assert (Htable : Http.streamableSessions st1 = delete id (Http.streamableSessions st)).
  { subst st1. rewrite (on_request_session sdk req st id session Hpath Hid Hne Hlookup).
    rewrite Hclose. simpl. rewrite (truthy_nonempty id Hne). reflexivity. }
  assert (Hgone : Http.streamableSessions st1 !! id = None)
    by (rewrite Htable; apply lookup_delete_eq).
  split; [exact Hgone |].
  split; [intros other Hother; rewrite Htable; apply lookup_delete_ne; congruence |].
  split; [| intros tr srv st0; split; reflexivity].
  intros later Hpath' Hid'.
  exact (on_request_unknown_session sdk later st1 id Hpath' Hid' Hne Hgone).
Qed.

Lemma session_closed_then_not_found_witness :
  Http.streamableSessions
    (snd (Http.on_request sample_sdk (Http.mkIncomingMessage "DELETE" "/mcp" (Some "abc"))
            (snd (Http.on_request sample_sdk (Http.mkIncomingMessage "POST" "/mcp" None)
                    Http.initial_state)))) !! "abc"
  = None.
Proof.
  eapply (session_closed_then_not_found sample_sdk
            (Http.mkIncomingMessage "DELETE" "/mcp" (Some "abc"))
            (snd (Http.on_request sample_sdk (Http.mkIncomingMessage "POST" "/mcp" None)
                    Http.initial_state))
            "abc" (Http.mkSession 1 0) (Normal tt));
    first [ reflexivity | discriminate | vm_compute; reflexivity ].
Defined.

(** X14.  Errors of the SDK are caught only while a session is being set
    up.  On a POST without session identifier, a [connect] that throws is
    logged and the response is left untouched (never ended), and a
    [handleRequest] that throws is logged as well: the listener completes
    normally in both cases.  On a request for a session of the table, a
    [handleRequest] that throws makes the listener itself throw. *)
Theorem sdk_errors_caught_only_on_setup (sdk : Http.Sdk) (req : Http.IncomingMessage)
    (st : Http.State) (error : string) :
  Http.pathname req = "/mcp" ->
  (Http.mcp_session_id req = None \/ Http.mcp_session_id req = Some "" ->
   Http.method req = "POST" ->
   (Http.connect sdk (Http.created st) (S (Http.created st)) = Throw error ->
    fst (Http.on_request sdk req st) = Normal Http.Untouched
    /\ Http.console (snd (Http.on_request sdk req st))
       = (Http.console st ++ [Http.StreamableConnectionError error])%list
    /\ Http.streamableSessions (snd (Http.on_request sdk req st))
       = Http.streamableSessions st)
   /\ (Http.connect sdk (Http.created st) (S (Http.created st)) = Normal tt ->
       Http.handleRequest sdk (S (Http.created st)) req
       = Http.mkHandling [] (Throw error) ->
       fst (Http.on_request sdk req st) = Normal (Http.HandedTo (S (Http.created st)))
       /\ Http.console (snd (Http.on_request sdk req st))
          = (Http.console st ++ [Http.StreamableConnectionError error])%list))
  /\ (forall id session,
        Http.mcp_session_id req = Some id -> id <> "" ->
        Http.streamableSessions st !! id = Some session ->
        Http.outcome (Http.handleRequest sdk (Http.transport session) req)
        = Throw error ->
        fst (Http.on_request sdk req st) = Throw error).
Proof.
  intros Hpath. split.
  - intros Hnoid Hpost. split.
    + intros Hconnect. unfold Http.on_request, Http.handleStreamable.
      rewrite Hpath, Hpost. cbn [String.eqb Ascii.eqb Bool.eqb].
      replace (Js.truthy (Js.nullish (Http.mcp_session_id req) "")) with false
        by (destruct Hnoid as [-> | ->]; reflexivity).
      unfold Http.create_pair. rewrite Hconnect. simpl.
      split; [reflexivity | split; reflexivity].
    + intros Hconnect Hthrow.
      rewrite (on_request_new_session sdk req st Hpath Hnoid Hpost Hconnect).
      cbv zeta. rewrite Hthrow. simpl. split; reflexivity.
  - intros id session Hid Hne Hlookup Hthrow.
    rewrite (on_request_session sdk req st id session Hpath Hid Hne Hlookup).
    simpl. rewrite Hthrow. reflexivity.
Qed.

Lemma sdk_errors_caught_only_on_setup_witness :
  fst (Http.on_request (Http.mkSdk (fun _ _ => Throw "boom")
                          (fun _ _ => Http.mkHandling [] (Normal tt)))
         (Http.mkIncomingMessage "POST" "/mcp" None) Http.initial_state)
  = Normal Http.Untouched.
Proof.
  apply (sdk_errors_caught_only_on_setup
           (Http.mkSdk (fun _ _ => Throw "boom")
              (fun _ _ => Http.mkHandling [] (Normal tt)))
           (Http.mkIncomingMessage "POST" "/mcp" None) Http.initial_state "boom");
    first [ reflexivity | left; reflexivity ].
Defined.

(** ** More on the requests of the search client *)

(** X15.  The fallback of a local search, when time allows.  If the
    locations request is answered without identifier and the second rate
    check reads the clock more than 1000 ms after the last reset (with room
    left in the monthly counter), a second request goes out to the web
    search endpoint with the same query, the count of the local search
    (5 when none was given, at most 20) and offset 0, without the language
    and filter parameters of the first; and when it is answered with a
    successful, parsed body the local search returns the web results of
    that body. *)
Theorem performLocalSearch_fallback_request query count w
    webResponse webData response data :
  0 <= second (requestCount w) ->
  fst (rate_check w) = Normal tt ->
  month (requestCount w) + 2 <= 15000 ->
  1000 < clock w (S (ticks w)) - lastReset (snd (rate_check w)) ->
  webApi w (length (sent w))
    (locations_request query (Js.nullish count 5) (apiKey w)) = Normal webResponse ->
  Response.ok webResponse = true ->
  Response.json webResponse = Normal webData ->
  locationIds_of webData = [] ->
  webApi w (length (sent w) + 1)%nat
    (web_search_request query (Js.nullish count 5) 0 (apiKey w)) = Normal response ->
  Response.ok response = true ->
  Response.json response = Normal data ->
  fst (performLocalSearch query count w)
  = Normal (separated_by (LF ++ LF) (map web_block (web_results_of data)))
  /\ (exists first second,
        sent (snd (performLocalSearch query count w)) = (sent w ++ [first; second])%list
        /\ searchParams first
           = [("q", query); ("search_lang", "en"); ("result_filter", "locations");
              ("count", Js.toString (Z.min (Js.nullish count 5) 20))]
        /\ endpoint second = web_search_endpoint
        /\ searchParams second
           = [("q", query); ("count", Js.toString (Z.min (Js.nullish count 5) 20));
              ("offset", "0")]).
Proof.
  intros Hs Hpass Hroom Hgap Hweb Hwebok Hwebjson Hids Hanswer Hok Hjson.
  rewrite (performLocalSearch_admitted_run query count w Hpass). cbv zeta.
  rewrite Hweb, Hwebok, Hwebjson, Hids. cbn [length Nat.eqb].
  set (rc1 := snd (rate_check w)) in *.
  set (req0 := locations_request query (Js.nullish count 5) (apiKey w)).
  set (w2 := after_send req0 (after_check rc1 w)).
  destruct (checkRateLimit_at_pass _ _ Hs Hpass) as (_ & Hmonth1 & _).
  fold (rate_check w) in Hmonth1. fold rc1 in Hmonth1.
  assert (Hcheck2 : rate_check w2
                    = (Normal tt, mkRequestCount 1 (month rc1 + 1) (clock w (S (ticks w))))).
  { apply (checkRateLimit_at_reset_pass (clock w (S (ticks w))) rc1); [exact Hgap | lia]. }
  rewrite (performWebSearch_admitted_run query _ None w2)
    by (rewrite Hcheck2; reflexivity).
  cbv zeta. cbn [Js.nullish].
  change (apiKey w2) with (apiKey w). change (webApi w2) with (webApi w).
  replace (length (sent w2)) with (length (sent w) + 1)%nat
    by (subst w2; simpl; rewrite length_app; reflexivity).
  rewrite Hanswer, Hok, Hjson, formatWebResults_blocks.
  split; [reflexivity |].
  exists req0, (web_search_request query (Js.nullish count 5) 0 (apiKey w)).
  split; [simpl; rewrite <- app_assoc; reflexivity |].
  split; [reflexivity | split; reflexivity].
Qed.

Lemma performLocalSearch_fallback_request_witness :
  fst (performLocalSearch "test" None (sample_world slow_clock fallback_bodies))
  = Normal ("Title: T" ++ LF ++ "Description: D" ++ LF ++ "URL: U")
  /\ exists first second,
       sent (snd (performLocalSearch "test" None
                    (sample_world slow_clock fallback_bodies)))
       = [first; second]
       /\ Js.getAll "count" (searchParams second) = ["5"].
Proof.
  destruct (performLocalSearch_fallback_request "test" None
              (sample_world slow_clock fallback_bodies)
              (Response.mk true 200 "OK" "" (Normal (fallback_bodies 0)))
              (fallback_bodies 0)
              (Response.mk true 200 "OK" "" (Normal one_web_result)) one_web_result)
    as (Htext & first & second & Hsent & _ & _ & Hparams).
  - vm_compute. discriminate.
  - reflexivity.
  - vm_compute. discriminate.
  - vm_compute. reflexivity.
  - reflexivity.
  - reflexivity.
  - reflexivity.
  - reflexivity.
  - reflexivity.
  - reflexivity.
  - reflexivity.
  - split; [exact Htext |]. exists first, second.
    split; [exact Hsent | rewrite Hparams; reflexivity].
Defined.

(** Below 2^53 in magnitude an integer is printed with its decimal
    digits. *)
Lemma toString_safe_integer (n : Z) :
  - 2 ^ 53 < n < 2 ^ 53 -> Js.toString n = Js.decimal n.
Proof.
  intros Hsafe. unfold Js.toString.
  replace (Z.abs n <? 2 ^ 53) with true by (symmetry; apply Z.ltb_lt; lia).
  reflexivity.
Qed.

(** X16.  Only the upper bound is applied to the count of a web search.
    For integers below 2^53 in magnitude: a count of at most 20, also one
    below 1, is sent as it is, with its decimal digits, and the offset is
    sent as it is whatever its value; the request carries the query, this
    count and this offset, each once, and nothing else. *)
Theorem performWebSearch_count_not_raised query (count offset : Z) w :
  - 2 ^ 53 < count <= 20 ->
  - 2 ^ 53 < offset < 2 ^ 53 ->
  fst (rate_check w) = Normal tt ->
  exists req,
    sent (snd (performWebSearch query (Some count) (Some offset) w))
    = (sent w ++ [req])%list
    /\ endpoint req = web_search_endpoint
    /\ searchParams req
       = [("q", query);
          ("count", NilZero.string_of_int (Z.to_int count));
          ("offset", NilZero.string_of_int (Z.to_int offset))].
Proof.
  intros Hcount Hoffset Hpass.
  rewrite (performWebSearch_admitted_run query (Some count) (Some offset) w Hpass).
  cbv zeta. cbn [Js.nullish].
  exists (web_search_request query count offset (apiKey w)).
  split; [reflexivity |]. split; [reflexivity |].
  unfold web_search_request, Js.Math_min. cbv zeta.
  rewrite Z.min_l by lia.
  assert (Hpow : 2 ^ 53 = 9007199254740992) by reflexivity.
  rewrite (toString_safe_integer count) by lia.
  rewrite (toString_safe_integer offset) by lia.
  reflexivity.
Qed.

Lemma performWebSearch_count_not_raised_witness :
  exists req,
    sent (snd (performWebSearch "test" (Some (-3)) (Some 50)
                 (sample_world slow_clock (fun _ => one_web_result))))
    = [req]
    /\ searchParams req = [("q", "test"); ("count", "-3"); ("offset", "50")].
Proof.
  destruct (performWebSearch_count_not_raised "test" (-3) 50
              (sample_world slow_clock (fun _ => one_web_result)))
    as (req & Hsent & _ & Hparams); [lia | lia | reflexivity |].
  exists req. split; [exact Hsent | exact Hparams].
Defined.
